(** * reprox: host-based reverse-proxy dispatcher and server lifecycle

    A shallow embedding of the Go package [reprox] (the dispatcher with its
    table of backend servers) and of [app/reverseProxy.go] (TLS policy and
    signal-driven shutdown), followed by the properties of the
    specification that were checked against it. *)

From Stdlib Require Import ZArith Lia.
From stdpp Require Import gmap strings list fin_maps.

Local Open Scope string_scope.

(** ** Data model *)

(** A [*httputil.ReverseProxy] is a pointer; what matters about it here is
    its identity, so a handle is the index of the object in the store of
    constructed proxies. *)
Definition handle := nat.

(** [tDestination]: the backend URL and the (possibly nil) proxy. *)
Record tDestination := mkDestination {
  destHost : string;
  destProxy : option handle
}.

Global Instance tDestination_eq_dec : EqDecision tDestination.
Proof. solve_decision. Defined.

(** [tBackendServers = map[string]tDestination] *)
Abbreviation tBackendServers := (gmap string tDestination).

(** Go functions return a value together with an [error]. *)
Inductive result (A E : Type) :=
  | Ok (a : A)
  | Fail (e : E).
Arguments Ok {A E} a.
Arguments Fail {A E} e.

(** What the dispatcher does with a request: either it answers itself
    through [http.Error], or it hands the request to a proxy, which relays
    it to the backend. *)
Inductive outcome :=
  | Replied (status : Z) (body : string)
  | Relayed (proxy : handle).

Global Instance outcome_eq_dec : EqDecision outcome.
Proof. solve_decision. Defined.

Definition StatusNotFound : Z := 404.
Definition StatusInternalServerError : Z := 500.

Definition newline : string := String (Ascii.ascii_of_nat 10) EmptyString.

(** [http.Error] sets the status and writes the message and a newline. *)
Definition http_Error (msg : string) (code : Z) : outcome :=
  Replied code (msg +:+ newline).

(** The observable effects of the dispatcher, in program order. *)
Inductive event :=
  | LogErr (sender msg : string)               (* apachelogger.Err *)
  | MapLoad (key : string)                     (* m[key] *)
  | MapStore (key : string) (d : tDestination) (* m[key] = d *)
  | NewProxy (p : handle).                     (* NewSingleHostReverseProxy *)

Global Instance event_eq_dec : EqDecision event.
Proof. solve_decision. Defined.

Definition is_store (e : event) : bool :=
  match e with MapStore _ _ => true | _ => false end.

(** The parser of [net/url] and the [%q] verb of [fmt] belong to the Go
    library; the dispatcher is verified for any behaviour of theirs. *)
Class Library := {
  URL : Type;
  error : Type;
  ParseRequestURI : string -> result URL error;
  quote : string -> string
}.

Section Dispatcher.

Context {lib : Library}.

(** The state the handler runs in: the shared map of the
    [TProxyHandler], the proxies constructed so far (a handle is an index
    into this list) and the journal of effects. *)
Record world := World {
  backendServers : tBackendServers;
  proxies : list URL;
  journal : list event
}.

Definition M (A : Type) : Type := world -> A * world.

Definition ret {A} (a : A) : M A := fun w => (a, w).

Definition bind {A B} (m : M A) (k : A -> M B) : M B :=
  fun w => let (a, w') := m w in k a w'.

Notation "'let*' x := m 'in' k" := (bind m (fun x => k))
  (at level 10, x pattern, m at level 100, k at level 200).

Definition emit (e : event) : M unit :=
  fun w => (tt, World (backendServers w) (proxies w) (journal w ++ [e])).

Definition apachelogger_Err (sender msg : string) : M unit :=
  emit (LogErr sender msg).

(** [target, ok := m[key]] *)
Definition load (key : string) : M (option tDestination) :=
  let* _ := emit (MapLoad key) in
  fun w => (backendServers w !! key, w).

(** [m[key] = d] *)
Definition store (key : string) (d : tDestination) : M unit :=
  let* _ := emit (MapStore key d) in
  fun w => (tt, World (<[key := d]> (backendServers w)) (proxies w) (journal w)).

(** [httputil.NewSingleHostReverseProxy] allocates a new proxy object. *)
Definition NewSingleHostReverseProxy (target : URL) : M handle :=
  fun w =>
    let p := length (proxies w) in
    (p, World (backendServers w) (proxies w ++ [target])
              (journal w ++ [NewProxy p])).

Definition createReverseProxy (aDestination : tDestination)
  : M (result handle error) :=
  match destProxy aDestination with
  | Some p =>
      (* there's already a running reverse proxy *)
      ret (Ok p)
  | None =>
      match ParseRequestURI (destHost aDestination) with
      | Fail err =>
          let msg := "Internal Server Error [" +:+ destHost aDestination +:+ "]" in
          let* _ := apachelogger_Err "ReProx/createReverseProxy" msg in
          ret (Fail err)
      | Ok targetURL =>
          let* p := NewSingleHostReverseProxy targetURL in
          ret (Ok p)
      end
  end.

Definition not_found_msg (host : string) : string :=
  "Backend server " +:+ quote host +:+ " not found".

(** [ServeHTTP], with the request reduced to its [Host]. *)
Definition ServeHTTP (aHost : string) : M outcome :=
  let* r := load aHost in
  match r with
  | None =>
      let msg := not_found_msg aHost in
      let* _ := apachelogger_Err "ReProx/ServeHTTP" msg in
      ret (http_Error msg StatusNotFound)
  | Some target =>
      let* r := createReverseProxy target in
      match r with
      | Fail _ =>
          let msg := "Internal Server Error" in
          ret (http_Error msg StatusInternalServerError)
      | Ok proxy =>
          let target := mkDestination (destHost target) (Some proxy) in
          let* _ := store aHost target in
          ret (Relayed proxy)
      end
  end.

(** Requests handled one after the other. *)
Fixpoint serve_all (hosts : list string) : M (list outcome) :=
  match hosts with
  | [] => ret []
  | h :: hs =>
      let* o := ServeHTTP h in
      let* os := serve_all hs in
      ret (o :: os)
  end.

(** ** Requests in flight

    The server runs [ServeHTTP] in one goroutine per request, all on the
    same map.  A request in flight is at one of the program points
    between which the handler touches the shared state once: the lookup
    (line 113), the call of [createReverseProxy] (line 123), the
    assignment to the map (lines 133-134) and the hand-over to the proxy
    (line 137). *)
Inductive task :=
  | AtLookup (aHost : string)
  | AtCreate (aHost : string) (target : tDestination)
  | AtStore (aHost : string) (target : tDestination) (proxy : handle)
  | AtServe (proxy : handle)
  | Finished (o : outcome).

Definition step (t : task) : M task :=
  match t with
  | AtLookup aHost =>
      let* r := load aHost in
      match r with
      | None =>
          let msg := not_found_msg aHost in
          let* _ := apachelogger_Err "ReProx/ServeHTTP" msg in
          ret (Finished (http_Error msg StatusNotFound))
      | Some target => ret (AtCreate aHost target)
      end
  | AtCreate aHost target =>
      let* r := createReverseProxy target in
      match r with
      | Fail _ =>
          ret (Finished (http_Error "Internal Server Error"
                                    StatusInternalServerError))
      | Ok proxy => ret (AtStore aHost target proxy)
      end
  | AtStore aHost target proxy =>
      let target := mkDestination (destHost target) (Some proxy) in
      let* _ := store aHost target in
      ret (AtServe proxy)
  | AtServe proxy => ret (Finished (Relayed proxy))
  | Finished o => ret (Finished o)
  end.

Fixpoint steps (n : nat) (t : task) : M task :=
  match n with
  | O => ret t
  | S n => let* t' := step t in steps n t'
  end.

(** The goroutines and the state they share. *)
Definition config : Type := list task * world.

(** The goroutine [i] makes one step. *)
Definition sched_step (c : config) (i : nat) : config :=
  match c.1 !! i with
  | None => c
  | Some t => let (t', w') := step t c.2 in (<[i := t']> c.1, w')
  end.

(** A schedule names the goroutine that moves next. *)
Definition run_schedule (c : config) (schedule : list nat) : config :=
  foldl sched_step c schedule.

Definition finished (t : task) : option outcome :=
  match t with Finished o => Some o | _ => None end.

(** Proxies constructed between two states. *)
Definition constructed (w w' : world) : nat :=
  length (proxies w') - length (proxies w).

(** The effects that happened between two states. *)
Definition new_events (w w' : world) : list event :=
  drop (length (journal w)) (journal w').

(** A map as [initBackendList] builds it: no destination has a proxy. *)
Definition fresh (m : tBackendServers) : Prop :=
  map_Forall (fun _ d => destProxy d = None) m.

(** Every proxy found in the map was constructed from the parsed
    [destHost] of its destination. *)
Definition consistent (w : world) : Prop :=
  forall k d p,
    backendServers w !! k = Some d -> destProxy d = Some p ->
    exists u, proxies w !! p = Some u /\ ParseRequestURI (destHost d) = Ok u.

(** The frame condition of the registry in the words of the
    specification: a request changes neither the set of hosts nor a
    backend URL, and the map is assigned to only while a proxy is being
    created for the requested host. *)
Definition writes_only_on_creation (w : world) (host : string) : Prop :=
  let w' := (ServeHTTP host w).2 in
  dom (backendServers w') = dom (backendServers w)
  /\ (forall k, destHost <$> backendServers w' !! k
               = destHost <$> backendServers w !! k)
  /\ (forall k d, MapStore k d ∈ new_events w w' ->
                  k = host /\ exists p, NewProxy p ∈ new_events w w').

(** The schedule without interleaving: the goroutines [from], [from+1],
    ... each make their four steps before the next one starts. *)
Fixpoint serial (from n : nat) : list nat :=
  match n with
  | O => []
  | S n => replicate 4 from ++ serial (S from) n
  end.

(** The single-construction property in the words of the specification:
    when [n] requests for the same host are in flight together and all of
    them have been answered, exactly one proxy has been constructed and
    all of them were relayed through it. *)
Definition single_construction
    (w : world) (host : string) (n : nat) (schedule : list nat) : Prop :=
  let c := run_schedule (replicate n (AtLookup host), w) schedule in
  (forall t, t ∈ c.1 -> is_Some (finished t)) ->
  constructed w c.2 = 1
  /\ exists p, forall t, t ∈ c.1 -> finished t = Some (Relayed p).

(** *** Invariant of requests racing for one host

    [n] requests for [host], whose backend URL [url] parses to [u], run
    interleaved on a state that had [base] proxies when they started. *)

(** A proxy for [u] that was constructed after the start. *)
Definition bound (u : URL) (base : nat) (w : world) (p : handle) : Prop :=
  base <= p /\ proxies w !! p = Some u.

Definition entry_ok (url : string) (u : URL) (base : nat) (w : world)
    (d : tDestination) : Prop :=
  destHost d = url /\ forall p, destProxy d = Some p -> bound u base w p.

Definition task_ok (host url : string) (u : URL) (base : nat) (w : world)
    (t : task) : Prop :=
  match t with
  | AtLookup h => h = host
  | AtCreate h target => h = host /\ entry_ok url u base w target
  | AtStore h target p => h = host /\ destHost target = url /\ bound u base w p
  | AtServe p => bound u base w p
  | Finished o => exists p, o = Relayed p /\ bound u base w p
  end.

(** A request that has not been through [createReverseProxy] yet may
    still construct a proxy. *)
Definition pending (t : task) : nat :=
  match t with
  | AtLookup _ | AtCreate _ _ => 1
  | _ => 0
  end.

Definition racing_inv (host url : string) (u : URL) (base n : nat)
    (c : config) : Prop :=
  (exists d, backendServers c.2 !! host = Some d /\ entry_ok url u base c.2 d)
  /\ Forall (task_ok host url u base c.2) c.1
  /\ base <= length (proxies c.2)
  /\ length (proxies c.2) + sum_list (pending <$> c.1) <= base + n.

(** *** Invariants of the handler *)

(** No proxy serves two hosts. *)
Definition exclusive (w : world) : Prop :=
  forall k1 k2 d1 d2 p,
    backendServers w !! k1 = Some d1 -> backendServers w !! k2 = Some d2 ->
    destProxy d1 = Some p -> destProxy d2 = Some p -> k1 = k2.

(** The proxies that were constructed are the proxies found in the map. *)
Definition all_attached (w : world) : Prop :=
  forall p,
    p < length (proxies w) <->
    exists k d, backendServers w !! k = Some d /\ destProxy d = Some p.

(** The hosts of the map and their backend URLs are those of [m0]. *)
Definition same_hosts (m0 : tBackendServers) (w : world) : Prop :=
  forall k, destHost <$> backendServers w !! k = destHost <$> m0 !! k.

(** The answers a request for [h] can get on a map with the hosts of
    [m0]: the 404 for [h] when [h] is no key of the map, otherwise the 500
    or a proxy. *)
Definition answer_ok (m0 : tBackendServers) (h : string) (o : outcome) : Prop :=
  match m0 !! h with
  | None => o = http_Error (not_found_msg h) StatusNotFound
  | Some _ =>
      o = http_Error "Internal Server Error" StatusInternalServerError
      \/ exists p, o = Relayed p
  end.

(** A request for [h] in flight on a map with the hosts of [m0]. *)
Definition task_of (m0 : tBackendServers) (h : string) (t : task) : Prop :=
  match t with
  | AtLookup h' => h' = h
  | AtCreate h' target =>
      h' = h /\ destHost <$> m0 !! h = Some (destHost target)
  | AtStore h' target _ =>
      h' = h /\ destHost <$> m0 !! h = Some (destHost target)
  | AtServe _ => is_Some (m0 !! h)
  | Finished o => answer_ok m0 h o
  end.

End Dispatcher.

(** [initBackendList] *)
Definition initBackendList : tBackendServers :=
  <["bla.mwat.de" := mkDestination "http://192.168.192.236:8181" None]>
  (<["bla.mwat.de:80" := mkDestination "http://192.168.192.236:8181" None]>
  (<["bla.mwat.de:443" := mkDestination "http://192.168.192.236:8181" None]>
  (<["read.mwat.de" := mkDestination "http://192.168.192.236:8383" None]>
  (<["read.mwat.de:80" := mkDestination "http://192.168.192.236:8383" None]>
  (<["read.mwat.de:443" := mkDestination "http://192.168.192.236:8383" None]>
   ∅))))).

(** [NewProxyHandler]: a handler over the initial list, nothing constructed. *)
Definition NewProxyHandler {lib : Library} : world :=
  World initBackendList [] [].

(** ** A concrete library

    One admissible behaviour of the two library functions, to run the
    handler on concrete requests: the parser accepts what starts with a
    scheme [http://] or with a slash, and [%q] puts its argument between
    double quotes. *)
Definition sample_parse (rawURL : string) : result string string :=
  if String.prefix "http://" rawURL then Ok rawURL
  else if String.prefix "/" rawURL then Ok rawURL
  else Fail ("parse " +:+ rawURL +:+ ": invalid URI for request").

Definition dquote : string := String (Ascii.ascii_of_nat 34) EmptyString.

Definition sample_quote (s : string) : string := dquote +:+ s +:+ dquote.

Definition sample_library : Library :=
  {| URL := string; error := string;
     ParseRequestURI := sample_parse; quote := sample_quote |}.

(** The state after a first request for [bla.mwat.de]. *)
Definition after_first_request : @world sample_library :=
  (ServeHTTP "bla.mwat.de" NewProxyHandler).2.

(** Two hosts, one of them with a backend URL that does not parse. *)
Definition one_bad_backend : @world sample_library :=
  World (<["bad.example" := mkDestination "192.168.192.236:8181" None]>
         (<["a.example:80" := mkDestination "http://10.0.0.1:9000" None]> ∅))
        [] [].

(** ** The TLS policy of the secure listener ([createServer443]) *)

Module TLS.

(** The cipher suites of [crypto/tls] that the server names. *)
Inductive CipherSuite :=
  | TLS_ECDHE_RSA_WITH_CHACHA20_POLY1305_SHA256
  | TLS_ECDHE_ECDSA_WITH_AES_256_GCM_SHA384
  | TLS_ECDHE_RSA_WITH_AES_256_GCM_SHA384
  | TLS_ECDHE_ECDSA_WITH_AES_128_GCM_SHA256
  | TLS_ECDHE_RSA_WITH_AES_128_GCM_SHA256
  | TLS_ECDHE_RSA_WITH_AES_128_CBC_SHA256
  | TLS_ECDHE_ECDSA_WITH_AES_128_CBC_SHA256
  | TLS_ECDHE_RSA_WITH_AES_256_CBC_SHA
  | TLS_ECDHE_RSA_WITH_AES_128_CBC_SHA
  | TLS_ECDHE_RSA_WITH_3DES_EDE_CBC_SHA
  | TLS_ECDHE_RSA_WITH_RC4_128_SHA
  | TLS_ECDHE_ECDSA_WITH_AES_256_CBC_SHA
  | TLS_ECDHE_ECDSA_WITH_AES_128_CBC_SHA
  | TLS_ECDHE_ECDSA_WITH_RC4_128_SHA
  | TLS_RSA_WITH_AES_256_GCM_SHA384
  | TLS_RSA_WITH_AES_128_GCM_SHA256
  | TLS_RSA_WITH_AES_128_CBC_SHA256
  | TLS_RSA_WITH_AES_256_CBC_SHA
  | TLS_RSA_WITH_AES_128_CBC_SHA
  | TLS_RSA_WITH_3DES_EDE_CBC_SHA
  | TLS_RSA_WITH_RC4_128_SHA
  | TLS_ECDHE_ECDSA_WITH_CHACHA20_POLY1305_SHA256.

Global Instance CipherSuite_eq_dec : EqDecision CipherSuite.
Proof. solve_decision. Defined.

(** The protocol versions, by their numbers on the wire. *)
Definition VersionTLS10 : Z := 0x0301.
Definition VersionTLS12 : Z := 0x0303.

(** The fields of [tls.Config] that the server sets. *)
Record Config := mkConfig {
  MaxVersion : Z;
  MinVersion : Z;
  PreferServerCipherSuites : bool;
  CipherSuites : list CipherSuite
}.

(** [result.TLSConfig] in [createServer443]. *)
Definition createServer443_TLSConfig : Config := {|
  MaxVersion := VersionTLS12;
  MinVersion := VersionTLS10;
  PreferServerCipherSuites := true;
  CipherSuites := [
    TLS_ECDHE_RSA_WITH_CHACHA20_POLY1305_SHA256;
    TLS_ECDHE_ECDSA_WITH_AES_256_GCM_SHA384;
    TLS_ECDHE_RSA_WITH_AES_256_GCM_SHA384;
    TLS_ECDHE_ECDSA_WITH_AES_128_GCM_SHA256;
    TLS_ECDHE_RSA_WITH_AES_128_GCM_SHA256;
    TLS_ECDHE_RSA_WITH_AES_128_CBC_SHA256;
    TLS_ECDHE_ECDSA_WITH_AES_128_CBC_SHA256;
    TLS_ECDHE_RSA_WITH_AES_256_CBC_SHA;
    TLS_ECDHE_RSA_WITH_AES_128_CBC_SHA;
    TLS_ECDHE_RSA_WITH_3DES_EDE_CBC_SHA;
    TLS_ECDHE_RSA_WITH_RC4_128_SHA;
    TLS_ECDHE_ECDSA_WITH_AES_256_CBC_SHA;
    TLS_ECDHE_ECDSA_WITH_AES_128_CBC_SHA;
    TLS_ECDHE_ECDSA_WITH_RC4_128_SHA;
    TLS_RSA_WITH_AES_256_GCM_SHA384;
    TLS_RSA_WITH_AES_128_GCM_SHA256;
    TLS_RSA_WITH_AES_128_CBC_SHA256;
    TLS_RSA_WITH_AES_256_CBC_SHA;
    TLS_RSA_WITH_AES_128_CBC_SHA;
    TLS_RSA_WITH_3DES_EDE_CBC_SHA;
    TLS_RSA_WITH_RC4_128_SHA;
    TLS_ECDHE_ECDSA_WITH_CHACHA20_POLY1305_SHA256
  ]
|}.

(** What the name of a suite says: the key exchange in front of [WITH],
    the cipher behind it. *)
Inductive KeyExchange := ECDHE_RSA | ECDHE_ECDSA | RSA.

Inductive Cipher := CHACHA20_POLY1305 | AES_GCM | AES_CBC | TripleDES_EDE_CBC | RC4_128.

Global Instance KeyExchange_eq_dec : EqDecision KeyExchange.
Proof. solve_decision. Defined.

Definition key_exchange (s : CipherSuite) : KeyExchange :=
  match s with
  | TLS_ECDHE_RSA_WITH_CHACHA20_POLY1305_SHA256
  | TLS_ECDHE_RSA_WITH_AES_256_GCM_SHA384
  | TLS_ECDHE_RSA_WITH_AES_128_GCM_SHA256
  | TLS_ECDHE_RSA_WITH_AES_128_CBC_SHA256
  | TLS_ECDHE_RSA_WITH_AES_256_CBC_SHA
  | TLS_ECDHE_RSA_WITH_AES_128_CBC_SHA
  | TLS_ECDHE_RSA_WITH_3DES_EDE_CBC_SHA
  | TLS_ECDHE_RSA_WITH_RC4_128_SHA => ECDHE_RSA
  | TLS_ECDHE_ECDSA_WITH_AES_256_GCM_SHA384
  | TLS_ECDHE_ECDSA_WITH_AES_128_GCM_SHA256
  | TLS_ECDHE_ECDSA_WITH_AES_128_CBC_SHA256
  | TLS_ECDHE_ECDSA_WITH_AES_256_CBC_SHA
  | TLS_ECDHE_ECDSA_WITH_AES_128_CBC_SHA
  | TLS_ECDHE_ECDSA_WITH_RC4_128_SHA
  | TLS_ECDHE_ECDSA_WITH_CHACHA20_POLY1305_SHA256 => ECDHE_ECDSA
  | TLS_RSA_WITH_AES_256_GCM_SHA384
  | TLS_RSA_WITH_AES_128_GCM_SHA256
  | TLS_RSA_WITH_AES_128_CBC_SHA256
  | TLS_RSA_WITH_AES_256_CBC_SHA
  | TLS_RSA_WITH_AES_128_CBC_SHA
  | TLS_RSA_WITH_3DES_EDE_CBC_SHA
  | TLS_RSA_WITH_RC4_128_SHA => RSA
  end.

Definition cipher (s : CipherSuite) : Cipher :=
  match s with
  | TLS_ECDHE_RSA_WITH_CHACHA20_POLY1305_SHA256
  | TLS_ECDHE_ECDSA_WITH_CHACHA20_POLY1305_SHA256 => CHACHA20_POLY1305
  | TLS_ECDHE_ECDSA_WITH_AES_256_GCM_SHA384
  | TLS_ECDHE_RSA_WITH_AES_256_GCM_SHA384
  | TLS_ECDHE_ECDSA_WITH_AES_128_GCM_SHA256
  | TLS_ECDHE_RSA_WITH_AES_128_GCM_SHA256
  | TLS_RSA_WITH_AES_256_GCM_SHA384
  | TLS_RSA_WITH_AES_128_GCM_SHA256 => AES_GCM
  | TLS_ECDHE_RSA_WITH_AES_128_CBC_SHA256
  | TLS_ECDHE_ECDSA_WITH_AES_128_CBC_SHA256
  | TLS_ECDHE_RSA_WITH_AES_256_CBC_SHA
  | TLS_ECDHE_RSA_WITH_AES_128_CBC_SHA
  | TLS_ECDHE_ECDSA_WITH_AES_256_CBC_SHA
  | TLS_ECDHE_ECDSA_WITH_AES_128_CBC_SHA
  | TLS_RSA_WITH_AES_128_CBC_SHA256
  | TLS_RSA_WITH_AES_256_CBC_SHA
  | TLS_RSA_WITH_AES_128_CBC_SHA => AES_CBC
  | TLS_ECDHE_RSA_WITH_3DES_EDE_CBC_SHA
  | TLS_RSA_WITH_3DES_EDE_CBC_SHA => TripleDES_EDE_CBC
  | TLS_ECDHE_RSA_WITH_RC4_128_SHA
  | TLS_ECDHE_ECDSA_WITH_RC4_128_SHA
  | TLS_RSA_WITH_RC4_128_SHA => RC4_128
  end.

(** The authenticated-encryption suites. *)
Definition aead (s : CipherSuite) : bool :=
  match cipher s with
  | CHACHA20_POLY1305 | AES_GCM => true
  | AES_CBC | TripleDES_EDE_CBC | RC4_128 => false
  end.

(** The suites kept for compatibility: RC4, 3DES and CBC. *)
Definition legacy (s : CipherSuite) : bool :=
  match cipher s with
  | AES_CBC | TripleDES_EDE_CBC | RC4_128 => true
  | CHACHA20_POLY1305 | AES_GCM => false
  end.

(** The order of preference in the words of the specification: the
    authenticated-encryption suites first, the legacy suites last. *)
Definition strong_first_legacy_last (suites : list CipherSuite) : Prop :=
  forall i j s t,
    suites !! i = Some s -> suites !! j = Some t ->
    aead s = true -> legacy t = true -> i < j.

(** The same, as a check that runs down the list: after the first legacy
    suite only legacy suites may follow. *)
Fixpoint strong_then_legacy (suites : list CipherSuite) : bool :=
  match suites with
  | [] => true
  | s :: rest =>
      if aead s then strong_then_legacy rest else forallb legacy rest
  end.

End TLS.

(** ** Serving and shutting down ([main], [setupSignals], [exit]) *)

Module Lifecycle.

(** What the goroutines of the program do to the outside. *)
Inductive effect :=
  | ErrorLog (sender msg : string)   (* apachelogger.Err *)
  | AccessLog (sender msg : string)  (* apachelogger.Log *)
  | StdLog (msg : string)            (* log.Println, log.Fatalln *)
  | Gosched                          (* runtime.Gosched *)
  | Shutdown (timeout : Z).          (* aServer.Shutdown(ctxTimeout) is called *)

Global Instance effect_eq_dec : EqDecision effect.
Proof. solve_decision. Defined.

Inductive status :=
  | Running
  | Exited (code : Z).

(** The process: what its goroutines have done so far and whether it is
    still alive. *)
Record process := mkProcess {
  done : list effect;
  state : status
}.

Definition start : process := mkProcess [] Running.

(** Nothing happens in a process that has exited. *)
Definition perform (e : effect) (p : process) : process :=
  match state p with
  | Running => mkProcess (done p ++ [e]) Running
  | Exited _ => p
  end.

Definition os_Exit (code : Z) (p : process) : process :=
  match state p with
  | Running => mkProcess (done p) (Exited code)
  | Exited _ => p
  end.

(** [log.Fatalln] is [log.Println] followed by [os.Exit(1)]. *)
Definition log_Fatalln (msg : string) (p : process) : process :=
  os_Exit 1 (perform (StdLog msg) p).

(** [exit] *)
Definition exit (aMessage : string) (p : process) : process :=
  let p := perform (ErrorLog "ReProx/main" aMessage) p in
  let p := perform Gosched p in (* let the logger write *)
  log_Fatalln aMessage p.

(** [time.Second], in nanoseconds. *)
Definition Second : Z := 1000000000.

(** The goroutine that [main] starts (lines 231-239): it announces the
    server, makes it, and sits in [ListenAndServe]; when that returns, it
    calls [exit] with the error. *)
Inductive serving :=
  | Listening                 (* inside server80.ListenAndServe() *)
  | Returned (err : string).  (* ListenAndServe has returned, exit is next *)

(** The goroutine that [setupSignals] starts (lines 191-213): it waits
    for a signal, logs it and calls [Shutdown]; when that returns an
    error, it calls [exit] with it, otherwise it ends. *)
Inductive watching :=
  | Waiting                   (* for signal := range c *)
  | Draining                  (* inside aServer.Shutdown(ctxTimeout) *)
  | Ended.

(** The program: the process and its two goroutines. *)
Record program := mkProgram {
  proc : process;
  serve : serving;
  watch : watching
}.

(** The program once the goroutine of [main] has reached
    [ListenAndServe]; [createServer80] has started the other goroutine on
    its way.  [gMe] is the name of the program. *)
Definition serving80 (gMe : string) : program :=
  let s := gMe +:+ " listening HTTP at :80" in
  let p := perform (StdLog s) start in
  let p := perform (AccessLog "ReProx/main" s) p in
  mkProgram p Listening Waiting.

(** What happens next is decided outside the program: which goroutine
    runs, when a signal arrives, and when and with what the two calls into
    [net/http] return. *)
Inductive move :=
  | Signal (signal : string)
      (* SIGINT or SIGTERM arrives, as [%v] prints it: the waiting
         goroutine runs up to its call of Shutdown *)
  | ListenAndServeReturns (err : string)
      (* with the text of its error, which is never nil *)
  | MainGoesOn
      (* the goroutine of main runs its next statement *)
  | ShutdownReturns (err : option string).
      (* [None] for nil, otherwise the text of the error: the goroutine
         of setupSignals runs to its end *)

Definition step (gMe : string) (prog : program) (m : move) : program :=
  match state (proc prog) with
  | Exited _ => prog
  | Running =>
      match m with
      | Signal signal =>
          match watch prog with
          | Waiting =>
              let msg := gMe +:+ " captured '" +:+ signal
                             +:+ "', stopping program and exiting ..." in
              let p := perform (ErrorLog "ReProx/catchSignals" msg) (proc prog) in
              let p := perform (StdLog msg) p in
              let p := perform (Shutdown (Second * 10)) p in
              mkProgram p (serve prog) Draining
          | _ => prog
          end
      | ListenAndServeReturns err =>
          match serve prog with
          | Listening => mkProgram (proc prog) (Returned err) (watch prog)
          | Returned _ => prog
          end
      | MainGoesOn =>
          match serve prog with
          | Returned err =>
              mkProgram (exit (gMe +:+ ": " +:+ err) (proc prog))
                        (serve prog) (watch prog)
          | Listening => prog
          end
      | ShutdownReturns err =>
          match watch prog with
          | Draining =>
              match err with
              | Some err =>
                  mkProgram (exit (gMe +:+ ": " +:+ err) (proc prog))
                            (serve prog) Ended
              | None => mkProgram (proc prog) (serve prog) Ended
              end
          | _ => prog
          end
      end
  end.

Definition run (gMe : string) (prog : program) (moves : list move) : program :=
  foldl (step gMe) prog moves.

(** The text of [http.ErrServerClosed], the error with which
    [ListenAndServe] returns once [Shutdown] has been called. *)
Definition ErrServerClosed : string := "http: Server closed".

End Lifecycle.

(** ** The servers ([createServ], [createServer80], [createServer443]) *)

Module Server.

(** A context made by [context.WithTimeout]: live, to expire [timeout]
    nanoseconds after it was made, or cancelled. *)
Inductive context :=
  | Live (timeout : Z)
  | Canceled.

Inductive Signal := SIGINT | SIGTERM.

(** What [createServ] leaves behind outside the server it returns: the
    contexts made so far (a context is its index in this list) and, for
    every call of [signal.Notify], the signals that were asked for. *)
Record runtime := mkRuntime {
  contexts : list context;
  notified : list (list Signal)
}.

(** The fields of [http.Server] that the program sets.  [BaseContext] is
    the context that the function of that field returns. *)
Record HTTPServer {H : Type} := mkServer {
  Addr : string;
  BaseContext : nat;
  Handler : H;
  IdleTimeout : Z;
  ReadHeaderTimeout : Z;
  ReadTimeout : Z;
  WriteTimeout : Z;
  TLSConfig : option TLS.Config
}.
Arguments HTTPServer H : clear implicits.

(** [context.WithTimeout(context.Background(), d)] *)
Definition WithTimeout (d : Z) (rt : runtime) : nat * runtime :=
  (length (contexts rt),
   mkRuntime (contexts rt ++ [Live d]) (notified rt)).

(** The cancel function that [WithTimeout] returns with the context. *)
Definition cancel (ctx : nat) (rt : runtime) : runtime :=
  mkRuntime (<[ctx := Canceled]> (contexts rt)) (notified rt).

(** [setupSignals] as [createServ] sees it: a channel is subscribed to
    [SIGINT] and [SIGTERM] and a goroutine is left waiting on it (its body
    is in [Lifecycle.step]). *)
Definition setupSignals (rt : runtime) : runtime :=
  mkRuntime (contexts rt) (notified rt ++ [[SIGINT; SIGTERM]]).

(** [createServ] *)
Definition createServ {H : Type} (aHandler : H) (aPort : string)
    (rt : runtime) : HTTPServer H * runtime :=
  let (ctxTimeout, rt) := WithTimeout (Lifecycle.Second * 10) rt in
  (* defer cancelTimeout() *)
  let aPort := if Nat.eqb 0 (String.length aPort) then ":80" else aPort in
  let server := {|
    Addr := aPort;
    BaseContext := ctxTimeout;
    Handler := aHandler;
    IdleTimeout := 0;
    ReadHeaderTimeout := 10 * Lifecycle.Second;
    ReadTimeout := 10 * Lifecycle.Second;
    WriteTimeout := -1;
    TLSConfig := None
  |} in
  let rt := setupSignals rt in
  (server, cancel ctxTimeout rt).

(** [createServer443] *)
Definition createServer443 {H : Type} (aHandler : H) (rt : runtime)
    : HTTPServer H * runtime :=
  let (result, rt) := createServ aHandler ":443" rt in
  ({| Addr := Addr result;
      BaseContext := BaseContext result;
      Handler := Handler result;
      IdleTimeout := IdleTimeout result;
      ReadHeaderTimeout := ReadHeaderTimeout result;
      ReadTimeout := ReadTimeout result;
      WriteTimeout := WriteTimeout result;
      TLSConfig := Some TLS.createServer443_TLSConfig |}, rt).

(** [createServer80] *)
Definition createServer80 {H : Type} (aHandler : H) (rt : runtime)
    : HTTPServer H * runtime :=
  createServ aHandler ":80" rt.

End Server.

(** ** The publish-subscribe table ([workinprogress/pubSub2.go]) *)

Module PubSub.

Section Subscriptions.

Context {T : Type}.

(** A channel made by [make(chan T, 1)]: the values it holds and whether
    it has been closed. *)
Record channel := mkChannel {
  buffer : list T;
  closed : bool
}.

Definition capacity : nat := 1.

(** The channels made so far (a channel is its index in this list) and
    the [subscriptions] map of the [TSubscriptions].  The methods hold the
    mutex from their first to their last statement, so each of them is one
    transition of this state. *)
Record store := mkStore {
  chans : list channel;
  subscriptions : gmap string (list nat)
}.

(** How a call ends: it returns, it waits on a channel, or it panics. *)
Inductive outcome (A : Type) :=
  | Returned (a : A) (s : store)
  | Blocked (s : store) (ch : nat)
  | Panicked (s : store).
Arguments Returned {A} a s.
Arguments Blocked {A} s ch.
Arguments Panicked {A} s.

(** The state in which a call ends. *)
Definition store_of {A} (o : outcome A) : store :=
  match o with
  | Returned _ s => s
  | Blocked s _ => s
  | Panicked s => s
  end.

(** [NewSubscriptions] *)
Definition NewSubscriptions : store := mkStore [] ∅.

Definition set_chan (ch : nat) (c : channel) (s : store) : store :=
  mkStore (<[ch := c]> (chans s)) (subscriptions s).

(** [ch <- value]: a panic on a closed channel, a wait while the buffer is
    full.  (A channel that was never made does not occur; like a nil
    channel it would make the sender wait.) *)
Definition send (ch : nat) (value : T) (s : store) : outcome unit :=
  match chans s !! ch with
  | None => Blocked s ch
  | Some c =>
      if closed c then Panicked s
      else if Nat.ltb (length (buffer c)) capacity
           then Returned tt (set_chan ch (mkChannel (buffer c ++ [value]) false) s)
           else Blocked s ch
  end.

(** [<-ch]: the oldest value; on a closed and empty channel the zero
    value, here [None]; a wait on an open and empty one. *)
Definition receive (ch : nat) (s : store) : outcome (option T) :=
  match chans s !! ch with
  | None => Blocked s ch
  | Some c =>
      match buffer c with
      | v :: rest => Returned (Some v) (set_chan ch (mkChannel rest (closed c)) s)
      | [] => if closed c then Returned None s else Blocked s ch
      end
  end.

(** [close(ch)]: a panic when the channel is closed already. *)
Definition close (ch : nat) (s : store) : outcome unit :=
  match chans s !! ch with
  | None => Panicked s
  | Some c =>
      if closed c then Panicked s
      else Returned tt (set_chan ch (mkChannel (buffer c) true) s)
  end.

(** [m[aTopic]] of a map of slices: the nil slice for a missing key. *)
Definition subscribers_of (aTopic : string) (s : store) : list nat :=
  default [] (subscriptions s !! aTopic).

(** [Subscribe] *)
Definition Subscribe (aTopic : string) (s : store) : nat * store :=
  let ch := length (chans s) in
  (ch,
   mkStore (chans s ++ [mkChannel [] false])
           (<[aTopic := (subscribers_of aTopic s ++ [ch])%list]> (subscriptions s))).

(** The loop of [Publish]. *)
Fixpoint send_all (subscribers : list nat) (value : T) (s : store)
    : outcome unit :=
  match subscribers with
  | [] => Returned tt s
  | subscriber :: rest =>
      match send subscriber value s with
      | Returned _ s' => send_all rest value s'
      | Blocked s' ch => Blocked s' ch
      | Panicked s' => Panicked s'
      end
  end.

(** [Publish] *)
Definition Publish (aTopic : string) (value : T) (s : store) : outcome unit :=
  send_all (subscribers_of aTopic s) value s.

(** The index at which the loop of [Unsubscribe] finds the channel. *)
Fixpoint index_of (aSubCh : nat) (subscribers : list nat) : option nat :=
  match subscribers with
  | [] => None
  | subscriber :: rest =>
      if Nat.eqb subscriber aSubCh then Some 0
      else S <$> index_of aSubCh rest
  end.

(** [Unsubscribe] *)
Definition Unsubscribe (aTopic : string) (aSubCh : nat) (s : store)
    : outcome unit :=
  match subscriptions s !! aTopic with
  | None => Returned tt s
  | Some subscribers =>
      match index_of aSubCh subscribers with
      | None => Returned tt s
      | Some i =>
          match close aSubCh s with
          | Returned _ s' =>
              Returned tt
                (mkStore (chans s')
                   (<[aTopic := (take i subscribers ++ drop (S i) subscribers)%list]>
                      (subscriptions s')))
          | Blocked s' ch => Blocked s' ch
          | Panicked s' => Panicked s'
          end
      end
  end.

(** The calls a user of the table can make. *)
Inductive call :=
  | CSubscribe (aTopic : string)
  | CPublish (aTopic : string) (value : T)
  | CUnsubscribe (aTopic : string) (aSubCh : nat)
  | CReceive (ch : nat).

(** A sequence of calls, up to the first that does not return. *)
Fixpoint run (calls : list call) (s : store) : outcome unit :=
  match calls with
  | [] => Returned tt s
  | c :: rest =>
      match c with
      | CSubscribe aTopic => run rest (Subscribe aTopic s).2
      | CPublish aTopic value =>
          match Publish aTopic value s with
          | Returned _ s' => run rest s'
          | o => o
          end
      | CUnsubscribe aTopic aSubCh =>
          match Unsubscribe aTopic aSubCh s with
          | Returned _ s' => run rest s'
          | o => o
          end
      | CReceive ch =>
          match receive ch s with
          | Returned _ s' => run rest s'
          | Blocked s' ch' => Blocked s' ch'
          | Panicked s' => Panicked s'
          end
      end
  end.

(** The subscribed channels are open, and a channel is subscribed once. *)
Definition well_formed (s : store) : Prop :=
  (forall topic ch,
     ch ∈ subscribers_of topic s -> closed <$> chans s !! ch = Some false)
  /\ (forall topic, NoDup (subscribers_of topic s))
  /\ (forall t1 t2 ch,
        ch ∈ subscribers_of t1 s -> ch ∈ subscribers_of t2 s -> t1 = t2).

End Subscriptions.

Arguments channel T : clear implicits.
Arguments store T : clear implicits.
Arguments call T : clear implicits.
Arguments outcome T A : clear implicits.
Arguments Returned {T A} a s.
Arguments Blocked {T A} s ch.
Arguments Panicked {T A} s.

End PubSub.

(** ** The nodes of the binary tree ([package btree]) *)

Module BTree.

(** The value of an [interface{}] by its dynamic type: an [int], a
    [string], or anything else. *)
Inductive data :=
  | DInt (n : Z)
  | DString (s : string)
  | DOther.

(** [TNode] *)
#[warnings="-register-all"]
Inductive TNode :=
  | mkNode (nData : data) (nLeft nRight : option TNode).

Definition nData (tn : TNode) : data :=
  match tn with mkNode d _ _ => d end.

(** [TInt.compare] *)
Definition compare (ti : Z) (aNode : TNode) : Z :=
  match nData aNode with
  | DInt n2 =>
      let n1 := ti in
      if Z.eqb n1 n2 then 0
      else if Z.ltb n1 n2 then -1
      else 1
  | _ => 1 (* _this_ node is considered greater than `aNode` *)
  end%Z.

(** [TNode.Data] and [TNode.lt] have a pointer for a receiver, and [lt]
    one for an argument: [None] is the nil pointer.  Their result is
    [None] when the call panics: a nil pointer is dereferenced or a type
    assertion fails. *)

(** [TNode.Data] *)
Definition Data (tn : option TNode) : option data :=
  match tn with
  | None => None
  | Some tn => Some (nData tn)
  end.

(** [aNode.nData.(int)] *)
Definition nData_int (aNode : option TNode) : option Z :=
  match aNode with
  | Some aNode => match nData aNode with DInt b => Some b | _ => None end
  | None => None
  end.

(** [aNode.nData.(string)] *)
Definition nData_string (aNode : option TNode) : option string :=
  match aNode with
  | Some aNode => match nData aNode with DString b => Some b | _ => None end
  | None => None
  end.

(** [TNode.lt] *)
Definition lt (tn aNode : option TNode) : option bool :=
  match tn with
  | None => None
  | Some tn =>
      match nData tn with
      | DInt a =>
          match nData_int aNode with
          | Some b => Some (Z.ltb a b)
          | None => None
          end
      | DString a =>
          match nData_string aNode with
          | Some b => Some (String.ltb a b)
          | None => None
          end
      | DOther => Some false
      end
  end.

End BTree.

(** * Properties *)

Section DispatcherFacts.

Context {lib : Library}.

Implicit Types (w : world) (d : tDestination) (p : handle).

(** *** The four paths through the handler *)

Lemma ServeHTTP_unknown w host :
  backendServers w !! host = None ->
  ServeHTTP host w =
    (http_Error (not_found_msg host) StatusNotFound,
     World (backendServers w) (proxies w)
           ((journal w ++ [MapLoad host])
              ++ [LogErr "ReProx/ServeHTTP" (not_found_msg host)])).
Proof.
  intros Hnone. unfold ServeHTTP, bind, load, emit; cbn.
  rewrite Hnone. reflexivity.
Qed.

Lemma ServeHTTP_invalid w host d e :
  backendServers w !! host = Some d ->
  destProxy d = None ->
  ParseRequestURI (destHost d) = Fail e ->
  ServeHTTP host w =
    (http_Error "Internal Server Error" StatusInternalServerError,
     World (backendServers w) (proxies w)
           ((journal w ++ [MapLoad host])
              ++ [LogErr "ReProx/createReverseProxy"
                    ("Internal Server Error [" +:+ destHost d +:+ "]")])).
Proof.
  intros Hd Hnil Hparse.
  unfold ServeHTTP, createReverseProxy, bind, load, emit; cbn.
  rewrite Hd, Hnil, Hparse. reflexivity.
Qed.

Lemma ServeHTTP_first w host d u :
  backendServers w !! host = Some d ->
  destProxy d = None ->
  ParseRequestURI (destHost d) = Ok u ->
  let p := length (proxies w) in
  let d' := mkDestination (destHost d) (Some p) in
  ServeHTTP host w =
    (Relayed p,
     World (<[host := d']> (backendServers w)) (proxies w ++ [u])
           (((journal w ++ [MapLoad host]) ++ [NewProxy p])
              ++ [MapStore host d'])).
Proof.
  intros Hd Hnil Hparse.
  unfold ServeHTTP, createReverseProxy, bind, load, store, emit; cbn.
  rewrite Hd, Hnil, Hparse. reflexivity.
Qed.

Lemma ServeHTTP_cached w host d p :
  backendServers w !! host = Some d ->
  destProxy d = Some p ->
  ServeHTTP host w =
    (Relayed p,
     World (backendServers w) (proxies w)
           ((journal w ++ [MapLoad host]) ++ [MapStore host d])).
Proof.
  intros Hd Hp.
  unfold ServeHTTP, createReverseProxy, bind, load, store, emit; cbn.
  rewrite Hd, Hp; cbn.
  assert (Hsame : mkDestination (destHost d) (Some p) = d)
    by (destruct d; cbn in *; congruence).
  rewrite Hsame, (insert_id _ _ _ Hd). reflexivity.
Qed.

(** Every request takes one of these paths. *)
Inductive path (w : world) (host : string) : Type :=
  | PUnknown : backendServers w !! host = None -> path w host
  | PInvalid d e :
      backendServers w !! host = Some d -> destProxy d = None ->
      ParseRequestURI (destHost d) = Fail e -> path w host
  | PFirst d u :
      backendServers w !! host = Some d -> destProxy d = None ->
      ParseRequestURI (destHost d) = Ok u -> path w host
  | PCached d p :
      backendServers w !! host = Some d -> destProxy d = Some p ->
      path w host.

Lemma path_of w host : path w host.
Proof.
  destruct (backendServers w !! host) as [d|] eqn:Hd.
  - destruct (destProxy d) as [p|] eqn:Hp.
    + eapply PCached; eauto.
    + destruct (ParseRequestURI (destHost d)) as [u|e] eqn:Hu.
      * eapply PFirst; eauto.
      * eapply PInvalid; eauto.
  - apply PUnknown; exact Hd.
Qed.

Lemma drop_journal2 {A} (l : list A) a b :
  drop (length l) ((l ++ [a]) ++ [b]) = [a; b].
Proof. by rewrite <- app_assoc, drop_app_length. Qed.

Lemma drop_journal3 {A} (l : list A) a b c :
  drop (length l) (((l ++ [a]) ++ [b]) ++ [c]) = [a; b; c].
Proof. by rewrite <- !app_assoc, drop_app_length. Qed.

(** Case analysis on the path taken by [ServeHTTP host w], with the
    call rewritten to its result. *)
Ltac by_path w host :=
  let d := fresh "d" in let e := fresh "e" in let u := fresh "u" in
  let p := fresh "p" in
  let Hd := fresh "Hd" in let Hp := fresh "Hp" in let Hu := fresh "Hu" in
  destruct (path_of w host) as [Hd | d e Hd Hp Hu | d u Hd Hp Hu | d p Hd Hp];
  [ rewrite ?(ServeHTTP_unknown w host Hd) in *
  | rewrite ?(ServeHTTP_invalid w host d e Hd Hp Hu) in *
  | rewrite ?(ServeHTTP_first w host d u Hd Hp Hu) in *
  | rewrite ?(ServeHTTP_cached w host d p Hd Hp) in * ];
  unfold new_events, constructed in *;
  cbn [fst snd backendServers proxies journal] in *;
  rewrite ?drop_journal2, ?drop_journal3 in *.

(** Membership in an explicit list of events, by cases. *)
Ltac members H :=
  apply list_elem_of_In in H; cbn in H;
  repeat match type of H with
    | _ \/ _ => destruct H as [H|H]
    | False => destruct H
    | _ = _ => first [discriminate H | injection H as <- <-]
    end.

(** *** createReverseProxy *)

(** C10: [createReverseProxy] fails exactly when the destination has no
    proxy yet and its [destHost] does not parse; a destination that has a
    proxy gets that proxy back, without an error and without a look at
    [destHost]. *)
Theorem createReverseProxy_error_iff d w :
  ((exists e, (createReverseProxy d w).1 = Fail e) <->
     destProxy d = None /\ exists e, ParseRequestURI (destHost d) = Fail e)
  /\ (forall p, destProxy d = Some p -> createReverseProxy d w = (Ok p, w)).
Proof.
  unfold createReverseProxy.
  destruct (destProxy d) as [p|]; cbn.
  - split.
    + split; [intros [e He]; discriminate | intros [? _]; discriminate].
    + intros ? [= ->]. reflexivity.
  - split; [|intros ? [=]].
    destruct (ParseRequestURI (destHost d)) as [u|e]; cbn.
    + split; [intros [e He]; discriminate | intros [_ [e He]]; discriminate].
    + split; eauto.
Qed.

(** *** Unknown hosts *)

(** C3: a request whose host is not a key of the map is answered with
    404 and a body that names the host; the handler logs the same
    message, constructs no proxy, relays nothing and leaves the map as it
    was. *)
Theorem unknown_host_not_found w host :
  backendServers w !! host = None ->
  let r := ServeHTTP host w in
  r.1 = Replied 404 (("Backend server " +:+ quote host +:+ " not found") +:+ newline)
  /\ new_events w r.2 =
       [MapLoad host;
        LogErr "ReProx/ServeHTTP" ("Backend server " +:+ quote host +:+ " not found")]
  /\ (forall p, r.1 <> Relayed p)
  /\ proxies r.2 = proxies w
  /\ backendServers r.2 = backendServers w.
Proof.
  intros Hnone r. subst r. rewrite (ServeHTTP_unknown w host Hnone).
  unfold new_events; cbn [fst snd backendServers proxies journal].
  rewrite drop_journal2. repeat split. intros p; discriminate.
Qed.

(** *** Error paths *)

(** C9: when the handler answers with an error (404 or 500 are the only
    ones it produces), the map is what it was before the request and no
    assignment to the map has taken place. *)
Theorem error_leaves_map_untouched w host code body :
  (ServeHTTP host w).1 = Replied code body ->
  (code = 404 \/ code = 500)%Z
  /\ backendServers (ServeHTTP host w).2 = backendServers w
  /\ filter is_store (new_events w (ServeHTTP host w).2) = [].
Proof.
  by_path w host; intros Hr; try discriminate;
    injection Hr as <- _; repeat split; auto.
Qed.

(** *** Sequences of requests *)

Lemma serve_all_cons host hosts w :
  serve_all (host :: hosts) w =
    ((ServeHTTP host w).1 :: (serve_all hosts (ServeHTTP host w).2).1,
     (serve_all hosts (ServeHTTP host w).2).2).
Proof.
  cbn [serve_all]. unfold bind at 1. destruct (ServeHTTP host w) as [o w1].
  unfold bind, ret. cbn. destruct (serve_all hosts w1); reflexivity.
Qed.

(** An entry that has its proxy is not touched by any request. *)
Lemma ServeHTTP_keeps_cached w host k d p :
  backendServers w !! k = Some d -> destProxy d = Some p ->
  backendServers (ServeHTTP host w).2 !! k = Some d.
Proof.
  intros Hk Hp. by_path w host; auto.
  rewrite lookup_insert_ne; auto. intros ->. congruence.
Qed.

Lemma serve_all_keeps_cached hosts w k d p :
  backendServers w !! k = Some d -> destProxy d = Some p ->
  backendServers (serve_all hosts w).2 !! k = Some d.
Proof.
  revert w. induction hosts as [|host hosts IH]; intros w Hk Hp; [exact Hk|].
  rewrite serve_all_cons. cbn [snd]. apply IH; auto.
  eapply ServeHTTP_keeps_cached; eauto.
Qed.

(** A relayed request leaves its proxy in the map. *)
Lemma ServeHTTP_relayed_cached w host p :
  (ServeHTTP host w).1 = Relayed p ->
  exists d, backendServers (ServeHTTP host w).2 !! host = Some d
            /\ destProxy d = Some p.
Proof.
  by_path w host; intros Hr; try discriminate; injection Hr as <-.
  - eexists. rewrite lookup_insert_eq. split; reflexivity.
  - eauto.
Qed.

(** *** Cache stability *)

Lemma later_request_cached w host d p (between : list string) :
  backendServers w !! host = Some d ->
  destProxy d = Some p ->
  let w1 := (serve_all between w).2 in
  ServeHTTP host w1 =
    (Relayed p,
     World (backendServers w1) (proxies w1)
           ((journal w1 ++ [MapLoad host]) ++ [MapStore host d]))
  /\ backendServers w1 !! host = Some d.
Proof.
  intros Hd Hp w1.
  pose proof (serve_all_keeps_cached between w host d p Hd Hp) as Hd1.
  fold w1 in Hd1. split; [|exact Hd1].
  apply ServeHTTP_cached; assumption.
Qed.

(** C2: once the destination of a host has its proxy, every later
    request for that host, whatever requests were handled in between, is
    relayed through that same proxy: nothing is constructed, and what the
    handler stores is the destination with that proxy again, so the map
    stays as it is. *)
Theorem cache_stability w host d p (between : list string) :
  backendServers w !! host = Some d ->
  destProxy d = Some p ->
  let w1 := (serve_all between w).2 in
  let r := ServeHTTP host w1 in
  r.1 = Relayed p
  /\ new_events w1 r.2 = [MapLoad host; MapStore host d]
  /\ proxies r.2 = proxies w1
  /\ backendServers r.2 = backendServers w1
  /\ backendServers r.2 !! host = Some d.
Proof.
  intros Hd Hp w1 r.
  destruct (later_request_cached w host d p between Hd Hp) as [Hr Hd1].
  fold w1 in Hr, Hd1. subst r. rewrite Hr.
  unfold new_events; cbn [fst snd backendServers proxies journal].
  rewrite drop_journal2. auto.
Qed.

(** The same, counted from the first request that was relayed: all the
    repetitions of the request get the proxy of the first. *)
Corollary repeated_requests_same_proxy w0 host p (n : nat) :
  (ServeHTTP host w0).1 = Relayed p ->
  let w1 := (ServeHTTP host w0).2 in
  (serve_all (replicate n host) w1).1 = replicate n (Relayed p)
  /\ proxies (serve_all (replicate n host) w1).2 = proxies w1.
Proof.
  intros Hr w1.
  destruct (ServeHTTP_relayed_cached w0 host p Hr) as (d & Hd & Hp).
  fold w1 in Hd. clearbody w1. clear Hr.
  revert w1 Hd. induction n as [|n IH]; intros w1 Hd; [split; reflexivity|].
  cbn [replicate]. rewrite serve_all_cons. cbn [fst snd].
  rewrite (ServeHTTP_cached w1 host d p Hd Hp). cbn [fst snd].
  destruct (IH (World (backendServers w1) (proxies w1)
                  ((journal w1 ++ [MapLoad host]) ++ [MapStore host d])) Hd)
    as [IH1 IH2].
  rewrite IH1, IH2. split; reflexivity.
Qed.

(** *** Frame condition of the map *)

(** C8 (amended): a request changes neither the set of hosts nor any
    backend URL, and no entry but that of the requested host.  The
    handler assigns to the map exactly when it relays the request, also
    when the proxy existed already; the assignment is to the requested
    host and stores the proxy the request is relayed through.  The
    content of the map changes only when a proxy was constructed. *)
Theorem map_frame w host :
  let r := ServeHTTP host w in
  dom (backendServers r.2) = dom (backendServers w)
  /\ (forall k, destHost <$> backendServers r.2 !! k
               = destHost <$> backendServers w !! k)
  /\ (forall k, k <> host -> backendServers r.2 !! k = backendServers w !! k)
  /\ (forall k d, MapStore k d ∈ new_events w r.2 ->
                  k = host /\ exists p, destProxy d = Some p /\ r.1 = Relayed p)
  /\ (forall p, r.1 = Relayed p -> exists d, MapStore host d ∈ new_events w r.2)
  /\ (backendServers r.2 <> backendServers w ->
      constructed w r.2 = 1 /\ exists p, NewProxy p ∈ new_events w r.2).
Proof.
  intros r; subst r.
  by_path w host; (split; [|split; [|split; [|split; [|split]]]]);
    try reflexivity; try (intros; reflexivity); try discriminate;
    try (intros; congruence); try (intros k d0 Hin; members Hin).
  - apply dom_insert_lookup_L. rewrite Hd. eauto.
  - intros k. destruct (decide (k = host)) as [->|Hne].
    + rewrite lookup_insert_eq, Hd. reflexivity.
    + rewrite lookup_insert_ne; auto.
  - intros k Hne. rewrite lookup_insert_ne; auto.
  - split; [reflexivity|]. eexists; split; reflexivity.
  - intros p _. eexists. apply list_elem_of_In. cbn. eauto.
  - intros _. rewrite length_app; cbn. split; [lia|].
    eexists. apply list_elem_of_In. cbn. eauto.
  - split; [reflexivity|]. eexists; split; [exact Hp|reflexivity].
  - intros p0 _. eexists. apply list_elem_of_In. cbn. eauto.
Qed.

(** *** Destinations whose URL does not parse *)

Lemma fresh_consistent w : fresh (backendServers w) -> consistent w.
Proof.
  intros Hfresh k d p Hk Hp. specialize (Hfresh k d Hk). cbn in Hfresh.
  congruence.
Qed.

Lemma ServeHTTP_consistent w host :
  consistent w -> consistent (ServeHTTP host w).2.
Proof.
  intros Hw. by_path w host; try exact Hw.
  intros k d0 p0. cbn [backendServers proxies].
  destruct (decide (k = host)) as [->|Hne].
  - rewrite lookup_insert_eq. intros [= <-] [= <-]. cbn [destHost].
    exists u. split; [apply list_lookup_middle; reflexivity|exact Hu].
  - rewrite lookup_insert_ne by auto. intros Hk Hp0.
    destruct (Hw k d0 p0 Hk Hp0) as (u0 & Hu0 & Hparse).
    exists u0. split; [apply lookup_app_l_Some; exact Hu0|exact Hparse].
Qed.

Lemma serve_all_consistent hosts w :
  consistent w -> consistent (serve_all hosts w).2.
Proof.
  revert w. induction hosts as [|host hosts IH]; intros w Hw; [exact Hw|].
  rewrite serve_all_cons. cbn [snd]. apply IH, ServeHTTP_consistent, Hw.
Qed.

(** A destination whose URL parses gets its requests relayed to that
    URL. *)
Lemma valid_host_relayed w host d u :
  consistent w ->
  backendServers w !! host = Some d ->
  ParseRequestURI (destHost d) = Ok u ->
  exists p, (ServeHTTP host w).1 = Relayed p
            /\ proxies (ServeHTTP host w).2 !! p = Some u.
Proof.
  intros Hw Hk Hparse. by_path w host; try congruence.
  - eexists; split; [reflexivity|].
    assert (d0 = d) as -> by congruence.
    assert (u0 = u) as -> by congruence.
    apply list_lookup_middle; reflexivity.
  - eexists; split; [reflexivity|].
    assert (d0 = d) as -> by congruence.
    destruct (Hw host d p Hd Hp) as (u0 & Hu0 & Hparse0).
    congruence.
Qed.

(** The answer to a request depends on the map and on the proxies, not
    on the journal. *)
Lemma outcome_ignores_journal w1 w2 host :
  backendServers w1 = backendServers w2 ->
  proxies w1 = proxies w2 ->
  (ServeHTTP host w1).1 = (ServeHTTP host w2).1.
Proof.
  intros Hm Hp. by_path w1 host; rewrite Hm in Hd.
  - rewrite (ServeHTTP_unknown w2 host Hd). reflexivity.
  - rewrite (ServeHTTP_invalid w2 host d e Hd Hp0 Hu). reflexivity.
  - rewrite (ServeHTTP_first w2 host d u Hd Hp0 Hu). cbn. congruence.
  - rewrite (ServeHTTP_cached w2 host d p Hd Hp0). reflexivity.
Qed.

(** C4: in a handler started on a fresh map, a request for a host whose
    backend URL does not parse is answered with 500; the failure is
    logged; neither the map nor the proxies change.  Requests for the
    hosts whose URL parses are answered afterwards as they would have
    been without it: relayed through a proxy for their URL. *)
Theorem invalid_backend_isolated w0 (earlier : list string) host d e :
  fresh (backendServers w0) ->
  let w := (serve_all earlier w0).2 in
  backendServers w !! host = Some d ->
  ParseRequestURI (destHost d) = Fail e ->
  let r := ServeHTTP host w in
  r.1 = Replied 500 ("Internal Server Error" +:+ newline)
  /\ new_events w r.2 =
       [MapLoad host;
        LogErr "ReProx/createReverseProxy"
               ("Internal Server Error [" +:+ destHost d +:+ "]")]
  /\ backendServers r.2 = backendServers w
  /\ proxies r.2 = proxies w
  /\ forall host' d' u',
       backendServers w !! host' = Some d' ->
       ParseRequestURI (destHost d') = Ok u' ->
       (ServeHTTP host' r.2).1 = (ServeHTTP host' w).1
       /\ exists p, (ServeHTTP host' r.2).1 = Relayed p
                    /\ proxies (ServeHTTP host' r.2).2 !! p = Some u'.
Proof.
  intros Hfresh w Hk Hfail r.
  assert (Hw : consistent w)
    by (apply serve_all_consistent, fresh_consistent, Hfresh).
  assert (Hnil : destProxy d = None).
  { destruct (destProxy d) as [p|] eqn:Hp; [|reflexivity].
    destruct (Hw host d p Hk Hp) as (u & _ & Hparse). congruence. }
  pose proof (ServeHTTP_consistent w host Hw) as Hw'.
  subst r. rewrite (ServeHTTP_invalid w host d e Hk Hnil Hfail) in *.
  unfold new_events; cbn [fst snd backendServers proxies journal] in *.
  rewrite drop_journal2.
  repeat (split; [reflexivity|]).
  intros host' d' u' Hk' Hparse'. split.
  - apply outcome_ignores_journal; reflexivity.
  - eapply valid_host_relayed; eauto.
Qed.

(** *** Requests in flight *)

(** Four steps of a goroutine are one call of [ServeHTTP]. *)
Lemma steps_ServeHTTP w host :
  steps 4 (AtLookup host) w = (Finished (ServeHTTP host w).1, (ServeHTTP host w).2).
Proof.
  by_path w host;
    unfold steps, step, createReverseProxy, bind, ret, load, store, emit,
      apachelogger_Err, NewSingleHostReverseProxy; cbn;
    rewrite ?Hd; cbn; rewrite ?Hp, ?Hu; cbn; try reflexivity.
  assert (Hsame : mkDestination (destHost d) (Some p) = d)
    by (destruct d; cbn in *; congruence).
  rewrite Hsame, (insert_id _ _ _ Hd). reflexivity.
Qed.

Lemma steps_S n t w :
  steps (S n) t w = steps n (step t w).1 (step t w).2.
Proof. cbn [steps]. unfold bind. destruct (step t w); reflexivity. Qed.

Lemma run_schedule_replicate n i (ts : list task) t w :
  ts !! i = Some t ->
  run_schedule (ts, w) (replicate n i) =
    (<[i := (steps n t w).1]> ts, (steps n t w).2).
Proof.
  revert ts t w. induction n as [|n IH]; intros ts t w Hi.
  - cbn. rewrite list_insert_id by exact Hi. reflexivity.
  - rewrite steps_S. cbn [replicate]. unfold run_schedule. cbn [foldl].
    unfold sched_step at 2. cbn [fst snd]. rewrite Hi.
    destruct (step t w) as [t' w'] eqn:Hstep. cbn [fst snd].
    fold (run_schedule (<[i:=t']> ts, w') (replicate n i)).
    rewrite (IH _ t' w').
    + rewrite list_insert_insert_eq. reflexivity.
    + apply list_lookup_insert_eq. eapply lookup_lt_Some, Hi.
Qed.

(** Without interleaving, the goroutines do what a sequence of calls
    does. *)
Lemma run_schedule_serial (hosts : list string) (done : list task) w :
  run_schedule ((done ++ (AtLookup <$> hosts))%list, w)
               (serial (length done) (length hosts)) =
    ((done ++ (Finished <$> (serve_all hosts w).1))%list,
     (serve_all hosts w).2).
Proof.
  revert done w. induction hosts as [|host hosts IH]; intros done w.
  - reflexivity.
  - cbn [length serial fmap list_fmap]. unfold run_schedule.
    rewrite foldl_app.
    fold (run_schedule ((done ++ AtLookup host :: (AtLookup <$> hosts))%list, w)
            (replicate 4 (length done))).
    rewrite (run_schedule_replicate 4 _ _ (AtLookup host))
      by (apply list_lookup_middle; reflexivity).
    rewrite steps_ServeHTTP. cbn [fst snd].
    rewrite insert_app_r_alt by lia.
    replace (length done - length done) with 0 by lia. cbn [insert list_insert].
    rewrite serve_all_cons. cbn [fst snd fmap list_fmap].
    specialize (IH (done ++ [Finished (ServeHTTP host w).1])%list
                  (ServeHTTP host w).2).
    rewrite length_app, Nat.add_1_r, <- app_assoc in IH. cbn [app] in IH.
    unfold run_schedule in IH. rewrite IH.
    rewrite <- app_assoc. reflexivity.
Qed.

(** *** Requests racing for one host *)

Lemma sum_pending_insert (ts : list task) i t t' :
  ts !! i = Some t ->
  sum_list (pending <$> <[i := t']> ts) + pending t
  = sum_list (pending <$> ts) + pending t'.
Proof.
  revert i. induction ts as [|t0 ts IH]; intros i Hi; [destruct i; discriminate|].
  destruct i as [|i].
  - injection Hi as ->. cbn. lia.
  - specialize (IH i Hi). change (<[S i:=t']> (t0 :: ts)) with (t0 :: <[i:=t']> ts).
    rewrite !fmap_cons. cbn [sum_list]. lia.
Qed.

Lemma bound_grows u base w w' p :
  (exists us, proxies w' = (proxies w ++ us)%list) ->
  bound u base w p -> bound u base w' p.
Proof.
  intros [us Hus] [Hbase Hp]. split; [exact Hbase|].
  rewrite Hus. apply lookup_app_l_Some, Hp.
Qed.

Lemma entry_ok_grows url u base w w' d :
  (exists us, proxies w' = (proxies w ++ us)%list) ->
  entry_ok url u base w d -> entry_ok url u base w' d.
Proof.
  intros Hgrow [Hurl Hp]. split; [exact Hurl|].
  intros p Hdp. eapply bound_grows; eauto.
Qed.

Lemma task_ok_grows host url u base w w' t :
  (exists us, proxies w' = (proxies w ++ us)%list) ->
  task_ok host url u base w t -> task_ok host url u base w' t.
Proof.
  intros Hgrow. destruct t as [h|h target|h target p|p|o]; cbn.
  - auto.
  - intros [? ?]; split; eauto using entry_ok_grows.
  - intros (? & ? & ?). split; [assumption|]. split; [assumption|].
    eauto using bound_grows.
  - eauto using bound_grows.
  - intros (p & ? & ?); eauto using bound_grows.
Qed.

(** One step of one of the racing requests. *)
Lemma step_racing host url u base w t :
  ParseRequestURI url = Ok u ->
  (exists d, backendServers w !! host = Some d /\ entry_ok url u base w d) ->
  task_ok host url u base w t ->
  base <= length (proxies w) ->
  let t' := (step t w).1 in
  let w' := (step t w).2 in
  (exists d, backendServers w' !! host = Some d /\ entry_ok url u base w' d)
  /\ task_ok host url u base w' t'
  /\ (exists us, proxies w' = (proxies w ++ us)%list)
  /\ length (proxies w') + pending t' <= length (proxies w) + pending t.
Proof.
  intros Hparse (d & Hd & Hentry) Ht Hbase.
  destruct t as [h|h target|h target p|p|o]; cbn in Ht.
  - subst h. unfold step, bind, load, emit; cbn. rewrite Hd. cbn.
    split; [exists d; split; [exact Hd|exact Hentry]|].
    split; [split; [reflexivity|exact Hentry]|].
    split; [exists []; rewrite app_nil_r; reflexivity|lia].
  - destruct Ht as [-> [Hurl Hcached]].
    unfold step, createReverseProxy, bind.
    destruct (destProxy target) as [p|] eqn:Hp; cbn.
    + split; [exists d; split; [exact Hd|exact Hentry]|].
      split; [repeat split; auto; apply Hcached; reflexivity|].
      split; [exists []; rewrite app_nil_r; reflexivity|lia].
    + rewrite Hurl, Hparse. cbn.
      assert (Hgrow : exists us, (proxies w ++ [u])%list = (proxies w ++ us)%list)
        by (eexists; reflexivity).
      split; [exists d; split; [exact Hd|]|].
      { destruct Hentry as [Hdurl Hdp]. split; [exact Hdurl|].
        intros p Hp'. destruct (Hdp p Hp') as [? Hlook]. split; [assumption|].
        cbn. apply lookup_app_l_Some, Hlook. }
      split; [|split; [exact Hgrow|rewrite length_app; cbn; lia]].
      split; [reflexivity|]. split; [exact Hurl|].
      split; [exact Hbase|]. cbn. apply list_lookup_middle; reflexivity.
  - destruct Ht as (-> & Hurl & Hbound).
    unfold step, bind, store, emit; cbn.
    split; [|split; [exact Hbound|split; [exists []; rewrite app_nil_r; reflexivity|lia]]].
    eexists. rewrite lookup_insert_eq. split; [reflexivity|].
    split; [exact Hurl|]. intros p0 [= <-]. exact Hbound.
  - cbn. split; [exists d; split; [exact Hd|exact Hentry]|].
    split; [exists p; split; [reflexivity|exact Ht]|].
    split; [exists []; rewrite app_nil_r; reflexivity|lia].
  - cbn. split; [exists d; split; [exact Hd|exact Hentry]|].
    split; [exact Ht|].
    split; [exists []; rewrite app_nil_r; reflexivity|lia].
Qed.

Lemma sched_step_racing host url u base n c i :
  ParseRequestURI url = Ok u ->
  racing_inv host url u base n c ->
  racing_inv host url u base n (sched_step c i).
Proof.
  intros Hparse (Hmap & Htasks & Hbase & Hcount).
  unfold sched_step. destruct (c.1 !! i) as [t|] eqn:Hi;
    [|repeat split; assumption].
  assert (Ht : task_ok host url u base c.2 t)
    by (eapply Forall_lookup_1; eauto).
  pose proof (step_racing host url u base c.2 t Hparse Hmap Ht Hbase) as Hstep.
  destruct (step t c.2) as [t' w'] eqn:Hs. cbn [fst snd] in Hstep.
  destruct Hstep as (Hmap' & Ht' & Hgrow & Hlen).
  unfold racing_inv. cbn [fst snd].
  split; [exact Hmap'|]. split; [|split].
  - apply Forall_insert; [|exact Ht'].
    eapply Forall_impl; [exact Htasks|].
    intros t0. apply task_ok_grows, Hgrow.
  - destruct Hgrow as [us ->]. rewrite length_app. lia.
  - pose proof (sum_pending_insert c.1 i t t' Hi). lia.
Qed.

Lemma run_schedule_racing host url u base n c schedule :
  ParseRequestURI url = Ok u ->
  racing_inv host url u base n c ->
  racing_inv host url u base n (run_schedule c schedule).
Proof.
  intros Hparse. revert c.
  induction schedule as [|i schedule IH]; intros c Hc; [exact Hc|].
  cbn. apply IH, sched_step_racing; assumption.
Qed.

Lemma sum_pending_start n host :
  sum_list (pending <$> replicate n (AtLookup host)) = n.
Proof. induction n; cbn; congruence. Qed.

(** Handled one after the other, the requests for a host that has no
    proxy yet get one proxy: the first of them constructs it and all of
    them are relayed through it. *)
Lemma serial_requests_one_proxy w host d u n :
  backendServers w !! host = Some d ->
  destProxy d = None ->
  ParseRequestURI (destHost d) = Ok u ->
  let p := length (proxies w) in
  let c := run_schedule (replicate (S n) (AtLookup host), w) (serial 0 (S n)) in
  c.1 = replicate (S n) (Finished (Relayed p))
  /\ proxies c.2 = (proxies w ++ [u])%list
  /\ constructed w c.2 = 1
  /\ single_construction w host (S n) (serial 0 (S n)).
Proof.
  intros Hd Hnil Hparse p c.
  assert (Hfirst : (ServeHTTP host w).1 = Relayed p)
    by (rewrite (ServeHTTP_first w host d u Hd Hnil Hparse); reflexivity).
  destruct (repeated_requests_same_proxy w host p n Hfirst) as [Hos Hps].
  assert (Hall : (serve_all (replicate (S n) host) w).1
                 = replicate (S n) (Relayed p)).
  { cbn [replicate]. rewrite serve_all_cons. cbn [fst].
    rewrite Hos, Hfirst. reflexivity. }
  assert (Hnew : proxies (serve_all (replicate (S n) host) w).2
                 = (proxies w ++ [u])%list).
  { cbn [replicate]. rewrite serve_all_cons. cbn [snd]. rewrite Hps.
    rewrite (ServeHTTP_first w host d u Hd Hnil Hparse). reflexivity. }
  pose proof (run_schedule_serial (replicate (S n) host) [] w) as Hrun.
  rewrite fmap_replicate, length_replicate, Hall, fmap_replicate in Hrun.
  cbn [app length] in Hrun.
  assert (Hone : constructed w (serve_all (replicate (S n) host) w).2 = 1)
    by (unfold constructed; rewrite Hnew, length_app; cbn; lia).
  unfold single_construction. subst c. rewrite Hrun. cbn [fst snd].
  repeat split; auto.
  exists p. intros t Ht. apply elem_of_replicate in Ht as [-> _]. reflexivity.
Qed.

(** C1 (amended): requests for a host that has no proxy yet, in flight
    together.  However they interleave, no more proxies are constructed
    than there are requests, and a request that has been answered was
    relayed through a proxy for the backend of the host that was
    constructed by one of them.  When they are handled one after the other,
    exactly one proxy is constructed and all of them are relayed through
    it. *)
Theorem single_construction_bounds w host d u n schedule :
  backendServers w !! host = Some d ->
  destProxy d = None ->
  ParseRequestURI (destHost d) = Ok u ->
  let start := (replicate (S n) (AtLookup host), w) in
  let c := run_schedule start schedule in
  let s := run_schedule start (serial 0 (S n)) in
  constructed w c.2 <= S n
  /\ (forall t o, t ∈ c.1 -> finished t = Some o ->
        exists p, o = Relayed p /\ length (proxies w) <= p
                  /\ proxies c.2 !! p = Some u
                  /\ 1 <= constructed w c.2)
  /\ s.1 = replicate (S n) (Finished (Relayed (length (proxies w))))
  /\ constructed w s.2 = 1.
Proof.
  intros Hd Hnil Hparse start c s.
  assert (Hstart : racing_inv host (destHost d) u (length (proxies w)) (S n) start).
  { unfold racing_inv, start. cbn [fst snd].
    split; [exists d; split; [exact Hd|]|].
    { split; [reflexivity|]. intros p Hp. congruence. }
    split; [apply Forall_replicate; reflexivity|].
    split; [reflexivity|]. rewrite sum_pending_start. lia. }
  pose proof (run_schedule_racing _ _ _ _ _ _ schedule Hparse Hstart)
    as (_ & Htasks & Hbase & Hcount).
  fold c in Htasks, Hbase, Hcount.
  split; [unfold constructed; lia|]. split.
  - intros t o Ht Ho.
    rewrite Forall_forall in Htasks. specialize (Htasks t Ht).
    destruct t; try discriminate. injection Ho as ->.
    destruct Htasks as (p & -> & Hlow & Hp).
    exists p. repeat (split; [assumption || reflexivity|]).
    apply lookup_lt_Some in Hp. unfold constructed. lia.
  - destruct (serial_requests_one_proxy w host d u n Hd Hnil Hparse)
      as (Hs1 & _ & Hs2 & _).
    split; [exact Hs1|exact Hs2].
Qed.

(** ** Further properties of the handler *)

Lemma ServeHTTP_keeps_destHost w host k :
  destHost <$> backendServers (ServeHTTP host w).2 !! k
  = destHost <$> backendServers w !! k.
Proof.
  by_path w host; try reflexivity.
  destruct (decide (k = host)) as [->|Hne].
  - rewrite lookup_insert_eq, Hd. reflexivity.
  - rewrite lookup_insert_ne; auto.
Qed.

Lemma serve_all_keeps_destHost hosts w k :
  destHost <$> backendServers (serve_all hosts w).2 !! k
  = destHost <$> backendServers w !! k.
Proof.
  revert w. induction hosts as [|host hosts IH]; intros w; [reflexivity|].
  rewrite serve_all_cons. cbn [snd]. rewrite IH. apply ServeHTTP_keeps_destHost.
Qed.

(** X1: Routing: in a handler started on a fresh map, whatever requests came
    before, a request for a host whose backend URL parses is relayed
    through a proxy for that URL. *)
Theorem registered_host_routed w0 (earlier : list string) host d u :
  fresh (backendServers w0) ->
  backendServers w0 !! host = Some d ->
  ParseRequestURI (destHost d) = Ok u ->
  let r := ServeHTTP host (serve_all earlier w0).2 in
  exists p, r.1 = Relayed p /\ proxies r.2 !! p = Some u.
Proof.
  intros Hfresh Hd Hparse r. subst r.
  assert (Hw : consistent (serve_all earlier w0).2)
    by (apply serve_all_consistent, fresh_consistent, Hfresh).
  pose proof (serve_all_keeps_destHost earlier w0 host) as Hurl.
  rewrite Hd in Hurl. cbn in Hurl.
  destruct (backendServers (serve_all earlier w0).2 !! host) as [d'|] eqn:Hd';
    [|discriminate].
  injection Hurl as Hurl.
  eapply valid_host_relayed; eauto. rewrite Hurl. exact Hparse.
Qed.

(** X2: The answer to a request that is repeated at once is the answer to the
    first: the 404 and the 500 again, or the same proxy. *)
Theorem repeated_request_same_answer w host :
  (ServeHTTP host (ServeHTTP host w).2).1 = (ServeHTTP host w).1.
Proof.
  destruct (path_of w host) as [Hd | d e Hd Hp Hu | d u Hd Hp Hu | d p Hd Hp].
  - rewrite (ServeHTTP_unknown w host Hd). cbn [fst snd].
    rewrite ServeHTTP_unknown; [reflexivity|exact Hd].
  - rewrite (ServeHTTP_invalid w host d e Hd Hp Hu). cbn [fst snd].
    erewrite ServeHTTP_invalid; [reflexivity|exact Hd|exact Hp|exact Hu].
  - rewrite (ServeHTTP_first w host d u Hd Hp Hu). cbn [fst snd].
    rewrite (ServeHTTP_cached _ host
               (mkDestination (destHost d) (Some (length (proxies w))))
               (length (proxies w)));
      [reflexivity|cbn; apply lookup_insert_eq|reflexivity].
  - rewrite (ServeHTTP_cached w host d p Hd Hp). cbn [fst snd].
    erewrite ServeHTTP_cached; [reflexivity|exact Hd|exact Hp].
Qed.

(** X3: The handler writes to the error log exactly when it answers with an
    error of its own. *)
Theorem logs_exactly_on_error w host :
  let r := ServeHTTP host w in
  (exists sender msg, LogErr sender msg ∈ new_events w r.2)
  <-> (exists code body, r.1 = Replied code body).
Proof.
  intros r; subst r. by_path w host; split.
  - intros _. eexists _, _. reflexivity.
  - intros _. eexists _, _. apply list_elem_of_In. cbn. eauto.
  - intros _. eexists _, _. reflexivity.
  - intros _. eexists _, _. apply list_elem_of_In. cbn. eauto.
  - intros (sender & msg & Hin). members Hin.
  - intros (code & body & Hr). discriminate.
  - intros (sender & msg & Hin). members Hin.
  - intros (code & body & Hr). discriminate.
Qed.

(** X4: [createReverseProxy] does not remember what it constructs: called
    again for a destination without a proxy it constructs another one, and
    it leaves the map alone. *)
Theorem createReverseProxy_constructs_anew d u w :
  destProxy d = None ->
  ParseRequestURI (destHost d) = Ok u ->
  let r1 := createReverseProxy d w in
  let r2 := createReverseProxy d r1.2 in
  r1.1 = Ok (length (proxies w))
  /\ r2.1 = Ok (S (length (proxies w)))
  /\ proxies r2.2 = (proxies w ++ [u; u])%list
  /\ backendServers r2.2 = backendServers w.
Proof.
  intros Hnil Hparse r1 r2. subst r1 r2.
  unfold createReverseProxy, bind, ret, NewSingleHostReverseProxy.
  rewrite Hnil, Hparse. cbn.
  rewrite length_app, Nat.add_1_r, <- app_assoc. auto.
Qed.

(** *** One proxy per host *)

Lemma ServeHTTP_tidy w host :
  exclusive w /\ all_attached w ->
  exclusive (ServeHTTP host w).2 /\ all_attached (ServeHTTP host w).2.
Proof.
  intros [Hex Hatt]. by_path w host; try (split; assumption).
  split.
  - intros k1 k2 d1 d2 p. cbn [backendServers].
    destruct (decide (k1 = host)) as [->|Hne1];
      destruct (decide (k2 = host)) as [->|Hne2]; [reflexivity| | |].
    + rewrite lookup_insert_eq, lookup_insert_ne by auto.
      intros [= <-] H2 [= <-] Hp2. exfalso.
      assert (Hlt : length (proxies w) < length (proxies w))
        by (apply Hatt; eauto).
      lia.
    + rewrite lookup_insert_eq, lookup_insert_ne by auto.
      intros H1 [= <-] Hp1 [= <-]. exfalso.
      assert (Hlt : length (proxies w) < length (proxies w))
        by (apply Hatt; eauto).
      lia.
    + rewrite !lookup_insert_ne by auto. apply Hex.
  - intros p. cbn [backendServers proxies]. rewrite length_app. cbn [length].
    split.
    + intros Hlt. destruct (decide (p = length (proxies w))) as [->|Hne].
      * exists host. eexists. rewrite lookup_insert_eq. split; reflexivity.
      * assert (Hold : p < length (proxies w)) by lia.
        apply Hatt in Hold as (k & d0 & Hk & Hp0).
        exists k, d0. split; [|exact Hp0].
        rewrite lookup_insert_ne; [exact Hk|]. intros <-. congruence.
    + intros (k & d0 & Hk & Hp0).
      destruct (decide (k = host)) as [->|Hne].
      * rewrite lookup_insert_eq in Hk. injection Hk as <-.
        injection Hp0 as <-. lia.
      * rewrite lookup_insert_ne in Hk by auto.
        assert (p < length (proxies w)) by (apply Hatt; eauto). lia.
Qed.

Lemma serve_all_tidy hosts w :
  exclusive w /\ all_attached w ->
  exclusive (serve_all hosts w).2 /\ all_attached (serve_all hosts w).2.
Proof.
  revert w. induction hosts as [|host hosts IH]; intros w Hw; [exact Hw|].
  rewrite serve_all_cons. cbn [snd]. apply IH, ServeHTTP_tidy, Hw.
Qed.

Lemma fresh_tidy w :
  fresh (backendServers w) -> proxies w = [] ->
  exclusive w /\ all_attached w.
Proof.
  intros Hfresh Hnil. split.
  - intros k1 k2 d1 d2 p H1 _ Hp1 _.
    specialize (Hfresh k1 d1 H1). cbn in Hfresh. congruence.
  - intros p. rewrite Hnil. cbn. split; [lia|].
    intros (k & d & Hk & Hp). specialize (Hfresh k d Hk). cbn in Hfresh.
    congruence.
Qed.

(** X5: A handler started on a fresh map, its requests handled one after the
    other, never gives two hosts the same proxy, also when the two hosts
    have the same backend URL. *)
Theorem hosts_never_share_a_proxy w0 (requests : list string) k1 k2 d1 d2 p1 p2 :
  fresh (backendServers w0) ->
  proxies w0 = [] ->
  let w := (serve_all requests w0).2 in
  backendServers w !! k1 = Some d1 ->
  backendServers w !! k2 = Some d2 ->
  destProxy d1 = Some p1 ->
  destProxy d2 = Some p2 ->
  k1 <> k2 ->
  p1 <> p2.
Proof.
  intros Hfresh Hnil w H1 H2 Hp1 Hp2 Hne ->.
  destruct (serve_all_tidy requests w0 (fresh_tidy w0 Hfresh Hnil)) as [Hex _].
  apply Hne. eapply Hex; eauto.
Qed.

(** X6: In such a handler every proxy that was constructed is the proxy of
    some host, and the proxy of a host is one that was constructed: none
    is lost and none is missing. *)
Theorem constructed_proxies_are_in_use w0 (requests : list string) p :
  fresh (backendServers w0) ->
  proxies w0 = [] ->
  let w := (serve_all requests w0).2 in
  p < length (proxies w) <->
  exists k d, backendServers w !! k = Some d /\ destProxy d = Some p.
Proof.
  intros Hfresh Hnil w.
  destruct (serve_all_tidy requests w0 (fresh_tidy w0 Hfresh Hnil)) as [_ Hatt].
  apply Hatt.
Qed.

(** *** Requests in flight: what no interleaving changes *)

Lemma step_task_of m0 w h t :
  same_hosts m0 w ->
  task_of m0 h t ->
  same_hosts m0 (step t w).2 /\ task_of m0 h (step t w).1.
Proof.
  intros Hsame Ht.
  destruct t as [h'|h' target|h' target p|p|o]; cbn in Ht.
  - subst h'. unfold step, bind, load, emit; cbn.
    pose proof (Hsame h) as Hh.
    destruct (backendServers w !! h) as [target|] eqn:Hd; cbn.
    + split; [exact Hsame|]. split; [reflexivity|]. rewrite <- Hh. reflexivity.
    + split; [exact Hsame|]. unfold answer_ok.
      destruct (m0 !! h); [discriminate|reflexivity].
  - destruct Ht as [-> Hurl].
    unfold step, createReverseProxy, bind.
    destruct (destProxy target) as [p|]; cbn.
    + split; [exact Hsame|]. split; [reflexivity|exact Hurl].
    + destruct (ParseRequestURI (destHost target)) as [u|e]; cbn.
      * split; [exact Hsame|]. split; [reflexivity|exact Hurl].
      * split; [exact Hsame|]. unfold answer_ok.
        destruct (m0 !! h); [left; reflexivity|discriminate].
  - destruct Ht as [-> Hurl].
    unfold step, bind, store, emit; cbn. split.
    + intros k. cbn. destruct (decide (k = h)) as [->|Hne].
      * rewrite lookup_insert_eq, Hurl. reflexivity.
      * rewrite lookup_insert_ne by auto. apply Hsame.
    + destruct (m0 !! h); [eauto|discriminate].
  - cbn. split; [exact Hsame|]. unfold answer_ok.
    destruct Ht as [d ->]. right. eauto.
  - cbn. split; [exact Hsame|exact Ht].
Qed.

Lemma run_schedule_task_of m0 (hosts : list string) c schedule :
  same_hosts m0 c.2 ->
  Forall2 (task_of m0) hosts c.1 ->
  same_hosts m0 (run_schedule c schedule).2
  /\ Forall2 (task_of m0) hosts (run_schedule c schedule).1.
Proof.
  revert c. induction schedule as [|i schedule IH]; intros c Hsame Htasks;
    [split; assumption|].
  cbn. apply IH; unfold sched_step.
  - destruct (c.1 !! i) as [t|] eqn:Hi; [|exact Hsame].
    destruct (Forall2_lookup_r _ _ _ _ _ Htasks Hi) as (h & _ & Ht).
    pose proof (step_task_of m0 c.2 h t Hsame Ht) as [Hs _].
    destruct (step t c.2); exact Hs.
  - destruct (c.1 !! i) as [t|] eqn:Hi; [|exact Htasks].
    destruct (Forall2_lookup_r _ _ _ _ _ Htasks Hi) as (h & Hh & Ht).
    pose proof (step_task_of m0 c.2 h t Hsame Ht) as [_ Ht'].
    destruct (step t c.2) as [t' w']. cbn [fst snd] in *.
    rewrite <- (list_insert_id hosts i h Hh).
    apply Forall2_insert; assumption.
Qed.

Lemma start_task_of m0 (hosts : list string) :
  Forall2 (task_of m0) hosts (AtLookup <$> hosts).
Proof. induction hosts; cbn; constructor; auto. reflexivity. Qed.

(** X7: However the requests in flight interleave, the hosts of the map and
    their backend URLs stay what they were. *)
Theorem interleaving_keeps_hosts w (hosts : list string) schedule :
  let c := run_schedule (AtLookup <$> hosts, w) schedule in
  dom (backendServers c.2) = dom (backendServers w)
  /\ forall k, destHost <$> backendServers c.2 !! k
               = destHost <$> backendServers w !! k.
Proof.
  intros c.
  destruct (run_schedule_task_of (backendServers w) hosts
              (AtLookup <$> hosts, w) schedule) as [Hsame _].
  { intros k. reflexivity. }
  { apply start_task_of. }
  fold c in Hsame. split; [|exact Hsame].
  apply set_eq. intros k. rewrite !elem_of_dom.
  specialize (Hsame k).
  destruct (backendServers c.2 !! k), (backendServers w !! k);
    try discriminate; split; intros [? ?]; eauto; discriminate.
Qed.

(** X8: However the requests in flight interleave, a request for a host that
    is no key of the map can only end with the 404 for that host, and a
    request for a host of the map never ends with a 404: it ends with the
    500 or it is relayed. *)
Theorem interleaving_keeps_answers w (hosts : list string) schedule i h o :
  let c := run_schedule (AtLookup <$> hosts, w) schedule in
  hosts !! i = Some h ->
  c.1 !! i = Some (Finished o) ->
  match backendServers w !! h with
  | None => o = http_Error (not_found_msg h) StatusNotFound
  | Some _ =>
      o = http_Error "Internal Server Error" StatusInternalServerError
      \/ exists p, o = Relayed p
  end.
Proof.
  intros c Hh Ho.
  destruct (run_schedule_task_of (backendServers w) hosts
              (AtLookup <$> hosts, w) schedule) as [_ Htasks].
  { intros k. reflexivity. }
  { apply start_task_of. }
  fold c in Htasks.
  destruct (Forall2_lookup_r _ _ _ _ _ Htasks Ho) as (h' & Hh' & Ht).
  assert (h' = h) as -> by congruence. exact Ht.
Qed.

End DispatcherFacts.

(** ** The dispatcher on concrete requests *)

Lemma createReverseProxy_error_iff_witness :
  destProxy (mkDestination "no url" (Some 7)) = Some 7
  /\ sample_parse "no url" = Fail "parse no url: invalid URI for request"
  /\ createReverseProxy (lib:=sample_library)
       (mkDestination "no url" (Some 7)) NewProxyHandler
     = (Ok 7, NewProxyHandler).
Proof.
  split; [reflexivity|]. split; [reflexivity|].
  apply (proj2 (createReverseProxy_error_iff (lib:=sample_library)
                  (mkDestination "no url" (Some 7)) NewProxyHandler) 7).
  reflexivity.
Defined.

Lemma unknown_host_not_found_witness :
  backendServers (lib:=sample_library) NewProxyHandler !! "bla.mwat.de:8080" = None
  /\ (ServeHTTP (lib:=sample_library) "bla.mwat.de:8080" NewProxyHandler).1
     = Replied 404 (("Backend server " +:+ dquote +:+ "bla.mwat.de:8080" +:+ dquote
                       +:+ " not found") +:+ newline).
Proof.
  split; [vm_compute; reflexivity|].
  apply (unknown_host_not_found (lib:=sample_library) NewProxyHandler
           "bla.mwat.de:8080").
  vm_compute; reflexivity.
Defined.

Lemma error_leaves_map_untouched_witness :
  (ServeHTTP "bad.example" one_bad_backend).1
    = Replied 500 ("Internal Server Error" +:+ newline)
  /\ backendServers (ServeHTTP "bad.example" one_bad_backend).2
     = backendServers one_bad_backend.
Proof.
  split; [vm_compute; reflexivity|].
  apply (error_leaves_map_untouched one_bad_backend "bad.example" 500
           ("Internal Server Error" +:+ newline)).
  vm_compute; reflexivity.
Defined.

Lemma cache_stability_witness :
  let d := mkDestination "http://192.168.192.236:8181" (Some 0) in
  let w1 := (serve_all ["read.mwat.de"; "bla.mwat.de"; "mwat.de"]
               after_first_request).2 in
  backendServers after_first_request !! "bla.mwat.de" = Some d
  /\ (ServeHTTP "bla.mwat.de" w1).1 = Relayed 0
  /\ proxies (ServeHTTP "bla.mwat.de" w1).2 = proxies w1.
Proof.
  intros d w1.
  assert (Hd : backendServers after_first_request !! "bla.mwat.de" = Some d)
    by (vm_compute; reflexivity).
  split; [exact Hd|].
  destruct (cache_stability after_first_request "bla.mwat.de" d 0
              ["read.mwat.de"; "bla.mwat.de"; "mwat.de"] Hd eq_refl)
    as (H1 & _ & H2 & _).
  split; [exact H1|exact H2].
Defined.

Lemma invalid_backend_isolated_witness :
  fresh (backendServers one_bad_backend)
  /\ (ServeHTTP "bad.example" (serve_all ["a.example:80"] one_bad_backend).2).1
     = Replied 500 ("Internal Server Error" +:+ newline).
Proof.
  assert (Hfresh : fresh (backendServers one_bad_backend)).
  { apply (bool_decide_unpack _). vm_compute. exact I. }
  split; [exact Hfresh|].
  apply (invalid_backend_isolated one_bad_backend ["a.example:80"] "bad.example"
           (mkDestination "192.168.192.236:8181" None)
           "parse 192.168.192.236:8181: invalid URI for request" Hfresh).
  - vm_compute; reflexivity.
  - vm_compute; reflexivity.
Defined.

Lemma single_construction_bounds_witness :
  let start := (replicate 3 (AtLookup "bla.mwat.de"),
                NewProxyHandler (lib:=sample_library)) in
  backendServers (lib:=sample_library) NewProxyHandler !! "bla.mwat.de"
    = Some (mkDestination "http://192.168.192.236:8181" None)
  /\ constructed NewProxyHandler (run_schedule start [0; 1; 2; 2; 1; 0; 0]).2 <= 3
  /\ (run_schedule start (serial 0 3)).1 = replicate 3 (Finished (Relayed 0))
  /\ constructed NewProxyHandler (run_schedule start (serial 0 3)).2 = 1.
Proof.
  intros start.
  assert (Hd : backendServers (lib:=sample_library) NewProxyHandler !! "bla.mwat.de"
               = Some (mkDestination "http://192.168.192.236:8181" None))
    by (vm_compute; reflexivity).
  split; [exact Hd|].
  destruct (single_construction_bounds (lib:=sample_library) NewProxyHandler
              "bla.mwat.de" (mkDestination "http://192.168.192.236:8181" None)
              "http://192.168.192.236:8181" 2 [0; 1; 2; 2; 1; 0; 0]
              Hd eq_refl eq_refl)
    as (H1 & _ & H2 & H3).
  split; [exact H1|]. split; [exact H2|exact H3].
Defined.

(** C1 (as the specification has it) fails: two requests for the same new
    host, interleaved step by step, both find the destination without a
    proxy and both construct one; the first request is relayed through the
    first proxy, the second through the second, which is the one that stays
    in the map. *)
Lemma racing_requests_two_proxies :
  let schedule := [0; 1; 0; 1; 0; 1; 0; 1] in
  let c := run_schedule (lib:=sample_library)
             (replicate 2 (AtLookup "bla.mwat.de"), NewProxyHandler) schedule in
  c.1 = [Finished (Relayed 0); Finished (Relayed 1)]
  /\ constructed NewProxyHandler c.2 = 2
  /\ (destProxy <$> backendServers c.2 !! "bla.mwat.de") = Some (Some 1)
  /\ ~ single_construction (lib:=sample_library)
         NewProxyHandler "bla.mwat.de" 2 schedule.
Proof.
  intros schedule c.
  assert (Hc : c.1 = [Finished (Relayed 0); Finished (Relayed 1)])
    by (vm_compute; reflexivity).
  assert (Hn : constructed NewProxyHandler c.2 = 2) by (vm_compute; reflexivity).
  split; [exact Hc|]. split; [exact Hn|]. split; [vm_compute; reflexivity|].
  unfold single_construction. fold c. intros Hclaim.
  destruct Hclaim as [Hone _].
  - intros t Ht. rewrite Hc in Ht. apply list_elem_of_In in Ht.
    destruct Ht as [<-|[<-|[]]]; eexists; reflexivity.
  - rewrite Hn in Hone. discriminate.
Qed.

(** C8 (as the specification has it) fails: the second request for a host
    is relayed through the proxy of the first and constructs nothing, and
    the handler assigns to the map all the same. *)
Lemma cached_request_writes_map :
  let r := ServeHTTP "bla.mwat.de" after_first_request in
  r.1 = Relayed 0
  /\ constructed after_first_request r.2 = 0
  /\ new_events after_first_request r.2 =
       [MapLoad "bla.mwat.de";
        MapStore "bla.mwat.de"
          (mkDestination "http://192.168.192.236:8181" (Some 0))]
  /\ ~ writes_only_on_creation after_first_request "bla.mwat.de".
Proof.
  intros r.
  assert (Hev : new_events after_first_request r.2 =
       [MapLoad "bla.mwat.de";
        MapStore "bla.mwat.de"
          (mkDestination "http://192.168.192.236:8181" (Some 0))])
    by (vm_compute; reflexivity).
  split; [vm_compute; reflexivity|]. split; [vm_compute; reflexivity|].
  split; [exact Hev|].
  unfold writes_only_on_creation. fold r. intros (_ & _ & Hclaim).
  destruct (Hclaim "bla.mwat.de"
              (mkDestination "http://192.168.192.236:8181" (Some 0)))
    as [_ [p Hp]].
  - rewrite Hev. apply list_elem_of_In. cbn. auto.
  - rewrite Hev in Hp. apply list_elem_of_In in Hp.
    destruct Hp as [Hp|[Hp|[]]]; discriminate.
Qed.

(** ** The TLS policy *)

Section TLSFacts.

Import TLS.

Lemma legacy_not_aead s : legacy s = negb (aead s).
Proof. unfold legacy, aead. destruct (cipher s); reflexivity. Qed.

(** The check that runs down the list decides the order of preference. *)
Lemma strong_then_legacy_sound suites :
  strong_then_legacy suites = true -> strong_first_legacy_last suites.
Proof.
  induction suites as [|s0 rest IH]; intros Hcheck i j s t Hi Hj Hs Ht.
  - destruct i; discriminate.
  - cbn [strong_then_legacy] in Hcheck.
    destruct (aead s0) eqn:Hs0.
    + destruct j as [|j].
      * injection Hj as <-. rewrite legacy_not_aead, Hs0 in Ht. discriminate.
      * destruct i as [|i]; [lia|].
        apply (IH Hcheck i j s t) in Hi; auto. lia.
    + destruct i as [|i].
      * injection Hi as <-. congruence.
      * cbn in Hi. rewrite forallb_forall in Hcheck.
        assert (Hleg : legacy s = true).
        { apply Hcheck. apply list_elem_of_In. eapply list_elem_of_lookup_2, Hi. }
        rewrite legacy_not_aead, Hs in Hleg. discriminate.
Qed.

(** C6 (as the specification has it) fails: the suite with RC4 at place
    11 of the list stands before the AES-GCM suite at place 15, and the
    last suite of the list is not a legacy suite but ChaCha20-Poly1305. *)
Lemma legacy_suites_not_last :
  let suites := CipherSuites createServer443_TLSConfig in
  suites !! 10 = Some TLS_ECDHE_RSA_WITH_RC4_128_SHA
  /\ suites !! 14 = Some TLS_RSA_WITH_AES_256_GCM_SHA384
  /\ last suites = Some TLS_ECDHE_ECDSA_WITH_CHACHA20_POLY1305_SHA256
  /\ strong_then_legacy suites = false
  /\ ~ strong_first_legacy_last suites.
Proof.
  intros suites. repeat (split; [reflexivity|]).
  intros Hclaim.
  specialize (Hclaim 14 10 TLS_RSA_WITH_AES_256_GCM_SHA384
                TLS_ECDHE_RSA_WITH_RC4_128_SHA
                eq_refl eq_refl eq_refl eq_refl).
  lia.
Qed.

(** C6 (amended): the configuration bounds the protocol version from
    below by TLS 1.0 and from above by TLS 1.2 and names 22 different
    cipher suites in an order of its own.  The first five are
    authenticated-encryption suites and every legacy suite (RC4, 3DES,
    CBC) comes after them.  Up to the last entry, the suites of one key
    exchange have their authenticated-encryption suites before their
    legacy suites. *)
Theorem tls_policy :
  let cfg := createServer443_TLSConfig in
  let suites := CipherSuites cfg in
  MinVersion cfg = VersionTLS10
  /\ MaxVersion cfg = VersionTLS12
  /\ (MinVersion cfg <= MaxVersion cfg)%Z
  /\ PreferServerCipherSuites cfg = true
  /\ length suites = 22
  /\ NoDup suites
  /\ (forall s, s ∈ take 5 suites -> aead s = true)
  /\ (forall j t, suites !! j = Some t -> legacy t = true -> 5 <= j)
  /\ (forall kx, strong_first_legacy_last
                  (filter (fun s => key_exchange s = kx) (take 21 suites))).
Proof.
  intros cfg suites.
  split; [reflexivity|]. split; [reflexivity|].
  split; [unfold cfg; cbn; unfold VersionTLS10, VersionTLS12; lia|].
  split; [reflexivity|]. split; [reflexivity|].
  split; [apply (bool_decide_unpack _); vm_compute; exact I|].
  split; [|split].
  - intros s Hs. apply list_elem_of_In in Hs. cbn in Hs.
    repeat (destruct Hs as [<-|Hs]; [reflexivity|]). destruct Hs.
  - intros j t Hj Ht.
    do 5 (destruct j as [|j]; [injection Hj as <-; discriminate|]). lia.
  - intros kx. apply strong_then_legacy_sound.
    destruct kx; vm_compute; reflexivity.
Qed.

End TLSFacts.

(** ** Serving and shutting down *)

Section LifecycleFacts.

Import Lifecycle.


(** When [Shutdown] returns an error while the process is alive, the
    goroutine of [setupSignals] logs the error and ends the process. *)
Lemma shutdown_error_logged_while_alive gMe err p sv :
  state p = Running ->
  proc (step gMe (mkProgram p sv Draining) (ShutdownReturns (Some err)))
  = mkProcess (done p ++ [ErrorLog "ReProx/main" (gMe +:+ ": " +:+ err);
                          Gosched;
                          StdLog (gMe +:+ ": " +:+ err)])
              (Exited 1).
Proof.
  intros Hrun. unfold step. cbn [proc watch]. rewrite Hrun.
  unfold exit, log_Fatalln, os_Exit, perform. cbn [proc]. rewrite Hrun.
  cbn [state done]. rewrite <- !app_assoc. reflexivity.
Qed.


End LifecycleFacts.

(** The run of C7 with a request that outlives the ten seconds that
    [Shutdown] waits: the deadline error appears in no entry of the log. *)
Lemma deadline_error_not_logged :
  let p := Lifecycle.proc
             (Lifecycle.run "reprox" (Lifecycle.serving80 "reprox")
                [Lifecycle.Signal "interrupt";
                 Lifecycle.ListenAndServeReturns Lifecycle.ErrServerClosed;
                 Lifecycle.MainGoesOn;
                 Lifecycle.ShutdownReturns (Some "context deadline exceeded")]) in
  Lifecycle.state p = Lifecycle.Exited 1
  /\ (Lifecycle.ErrorLog "ReProx/main" "reprox: http: Server closed"
        ∈ Lifecycle.done p)
  /\ (Lifecycle.ErrorLog "ReProx/main" "reprox: context deadline exceeded"
        ∉ Lifecycle.done p)
  /\ (Lifecycle.StdLog "reprox: context deadline exceeded" ∉ Lifecycle.done p).
Proof.
  intros p.
  split; [reflexivity|]. split; [|split].
  - apply list_elem_of_In. vm_compute. tauto.
  - intros Hin. apply list_elem_of_In in Hin. vm_compute in Hin.
    repeat destruct Hin as [Hin|Hin]; try discriminate Hin. exact Hin.
  - intros Hin. apply list_elem_of_In in Hin. vm_compute in Hin.
    repeat destruct Hin as [Hin|Hin]; try discriminate Hin. exact Hin.
Qed.


(** ** Further properties on concrete requests *)

Lemma fresh_initBackendList : fresh initBackendList.
Proof. apply (bool_decide_unpack _). vm_compute. exact I. Qed.

Lemma registered_host_routed_witness :
  let r := ServeHTTP (lib:=sample_library) "read.mwat.de:443"
             (serve_all ["bla.mwat.de"; "nowhere"; "read.mwat.de"]
                NewProxyHandler).2 in
  fresh initBackendList
  /\ exists p, r.1 = Relayed p
               /\ proxies r.2 !! p = Some "http://192.168.192.236:8383".
Proof.
  split; [exact fresh_initBackendList|].
  apply (registered_host_routed (lib:=sample_library) NewProxyHandler
           ["bla.mwat.de"; "nowhere"; "read.mwat.de"] "read.mwat.de:443"
           (mkDestination "http://192.168.192.236:8383" None)
           "http://192.168.192.236:8383"
           fresh_initBackendList eq_refl eq_refl).
Defined.

Lemma createReverseProxy_constructs_anew_witness :
  let d := mkDestination "http://192.168.192.236:8181" None in
  let r1 := createReverseProxy (lib:=sample_library) d NewProxyHandler in
  r1.1 = Ok 0 /\ (createReverseProxy d r1.2).1 = Ok 1.
Proof.
  intros d r1.
  destruct (createReverseProxy_constructs_anew (lib:=sample_library) d
              "http://192.168.192.236:8181" NewProxyHandler eq_refl eq_refl)
    as (H1 & H2 & _).
  split; [exact H1|exact H2].
Defined.

Lemma hosts_never_share_a_proxy_witness :
  let w := (serve_all (lib:=sample_library) ["bla.mwat.de"; "bla.mwat.de:80"]
              NewProxyHandler).2 in
  backendServers w !! "bla.mwat.de"
    = Some (mkDestination "http://192.168.192.236:8181" (Some 0))
  /\ backendServers w !! "bla.mwat.de:80"
     = Some (mkDestination "http://192.168.192.236:8181" (Some 1))
  /\ 0 <> 1.
Proof.
  intros w.
  assert (H1 : backendServers w !! "bla.mwat.de"
               = Some (mkDestination "http://192.168.192.236:8181" (Some 0)))
    by (vm_compute; reflexivity).
  assert (H2 : backendServers w !! "bla.mwat.de:80"
               = Some (mkDestination "http://192.168.192.236:8181" (Some 1)))
    by (vm_compute; reflexivity).
  split; [exact H1|]. split; [exact H2|].
  apply (hosts_never_share_a_proxy (lib:=sample_library) NewProxyHandler
           ["bla.mwat.de"; "bla.mwat.de:80"] "bla.mwat.de" "bla.mwat.de:80"
           _ _ 0 1 fresh_initBackendList eq_refl H1 H2 eq_refl eq_refl).
  intros Heq. discriminate Heq.
Defined.

Lemma constructed_proxies_are_in_use_witness :
  let w := (serve_all (lib:=sample_library) ["bla.mwat.de"; "bla.mwat.de:80"]
              NewProxyHandler).2 in
  exists k d, backendServers w !! k = Some d /\ destProxy d = Some 1.
Proof.
  intros w.
  apply (constructed_proxies_are_in_use (lib:=sample_library) NewProxyHandler
           ["bla.mwat.de"; "bla.mwat.de:80"] 1 fresh_initBackendList eq_refl).
  vm_compute. lia.
Defined.

Lemma interleaving_keeps_answers_witness :
  let c := run_schedule (lib:=sample_library)
             (AtLookup <$> ["bla.mwat.de"; "mwat.de"], NewProxyHandler)
             [1; 0; 0; 1; 0; 0] in
  c.1 !! 1 = Some (Finished (Replied 404
                 (("Backend server " +:+ dquote +:+ "mwat.de" +:+ dquote
                     +:+ " not found") +:+ newline)))
  /\ Replied 404 (("Backend server " +:+ dquote +:+ "mwat.de" +:+ dquote
                     +:+ " not found") +:+ newline)
     = http_Error (not_found_msg (lib:=sample_library) "mwat.de") StatusNotFound.
Proof.
  intros c.
  assert (Hc : c.1 !! 1 = Some (Finished (Replied 404
                 (("Backend server " +:+ dquote +:+ "mwat.de" +:+ dquote
                     +:+ " not found") +:+ newline))))
    by (vm_compute; reflexivity).
  split; [exact Hc|].
  apply (interleaving_keeps_answers (lib:=sample_library) NewProxyHandler
           ["bla.mwat.de"; "mwat.de"] [1; 0; 0; 1; 0; 0] 1 "mwat.de" _
           eq_refl Hc).
Defined.

(** ** The servers *)

Section ServerFacts.

Import Server.

Context {H : Type}.
Implicit Types (aHandler : H) (rt : runtime).

(** X9: The context that a server made by [createServ] gives to its requests
    is a new one and is cancelled by the time [createServ] returns; the
    contexts that existed before are as they were. *)
Theorem createServ_base_context_canceled aHandler aPort rt :
  let r := createServ aHandler aPort rt in
  BaseContext r.1 = length (contexts rt)
  /\ contexts r.2 !! BaseContext r.1 = Some Canceled
  /\ forall ctx, ctx < length (contexts rt) ->
       contexts r.2 !! ctx = contexts rt !! ctx.
Proof.
  intros r. subst r. unfold createServ, WithTimeout, setupSignals, cancel.
  cbn [fst snd BaseContext contexts notified].
  split; [reflexivity|]. split.
  - apply list_lookup_insert_eq. rewrite length_app. cbn. lia.
  - intros ctx Hlt. rewrite list_lookup_insert_ne by lia.
    apply lookup_app_l. exact Hlt.
Qed.

(** X10: A server made by [createServ] never has an empty address: without a
    port it listens on [:80], as the server of [createServer80] does, and
    otherwise on the port it was given. *)
Theorem createServ_address aHandler aPort rt :
  Addr (createServ aHandler aPort rt).1 <> EmptyString
  /\ (aPort <> EmptyString -> Addr (createServ aHandler aPort rt).1 = aPort)
  /\ createServ aHandler EmptyString rt = createServer80 aHandler rt.
Proof.
  unfold createServer80, createServ, WithTimeout. cbn [fst snd Addr].
  destruct aPort as [|a aPort]; cbn; repeat split; congruence.
Qed.

(** X11: The plain and the secure server, made one after the other: they
    have the same handler and the same timeouts, only the secure one has a
    TLS configuration, each has a base context of its own, cancelled
    already, and each has subscribed to [SIGINT] and [SIGTERM]. *)
Theorem servers_side_by_side aHandler rt :
  let r80 := createServer80 aHandler rt in
  let r443 := createServer443 aHandler r80.2 in
  Addr r80.1 = ":80" /\ Addr r443.1 = ":443"
  /\ Handler r80.1 = Handler r443.1
  /\ (IdleTimeout r80.1, ReadHeaderTimeout r80.1, ReadTimeout r80.1,
       WriteTimeout r80.1)
     = (IdleTimeout r443.1, ReadHeaderTimeout r443.1, ReadTimeout r443.1,
        WriteTimeout r443.1)
  /\ TLSConfig r80.1 = None
  /\ TLSConfig r443.1 = Some TLS.createServer443_TLSConfig
  /\ BaseContext r80.1 <> BaseContext r443.1
  /\ contexts r443.2 !! BaseContext r80.1 = Some Canceled
  /\ contexts r443.2 !! BaseContext r443.1 = Some Canceled
  /\ notified r443.2
     = (notified rt ++ [[SIGINT; SIGTERM]; [SIGINT; SIGTERM]])%list.
Proof.
  intros r80 r443. subst r80 r443.
  unfold createServer443, createServer80, createServ, WithTimeout,
    setupSignals, cancel.
  cbn [fst snd Addr Handler IdleTimeout ReadHeaderTimeout ReadTimeout
         WriteTimeout TLSConfig BaseContext contexts notified].
  rewrite length_insert, length_app. cbn [length].
  repeat (split; [reflexivity|]).
  split; [lia|]. split; [|split].
  - rewrite list_lookup_insert_ne by lia.
    rewrite lookup_app_l by (rewrite length_insert, length_app; cbn; lia).
    apply list_lookup_insert_eq. rewrite length_app. cbn. lia.
  - apply list_lookup_insert_eq.
    rewrite length_app, length_insert, length_app. cbn. lia.
  - rewrite <- app_assoc. reflexivity.
Qed.

End ServerFacts.

(** ** The publish-subscribe table *)

Section PubSubFacts.

Import PubSub.

Context {T : Type}.
Implicit Types (s : store T) (c : channel T) (ch : nat) (subs : list nat).

Lemma lookup_set_chan_eq ch c s :
  ch < length (chans s) -> chans (set_chan ch c s) !! ch = Some c.
Proof. intros Hlt. cbn. apply list_lookup_insert_eq, Hlt. Qed.

Lemma lookup_set_chan_ne ch ch' c s :
  ch <> ch' -> chans (set_chan ch c s) !! ch' = chans s !! ch'.
Proof. intros Hne. cbn. apply list_lookup_insert_ne, Hne. Qed.

(** The ways a send can go. *)
Lemma send_cases ch (v : T) s :
  (exists c, chans s !! ch = Some c /\ closed c = false /\ buffer c = []
             /\ send ch v s = Returned tt (set_chan ch (mkChannel [v] false) s))
  \/ (exists c, chans s !! ch = Some c /\ closed c = false /\ buffer c <> []
                /\ send ch v s = Blocked s ch)
  \/ (exists c, chans s !! ch = Some c /\ closed c = true
                /\ send ch v s = Panicked s)
  \/ (chans s !! ch = None /\ send ch v s = Blocked s ch).
Proof.
  unfold send. destruct (chans s !! ch) as [c|] eqn:Hc; [|auto].
  destruct (closed c) eqn:Hcl; [right; right; left; eauto|].
  destruct (buffer c) as [|v0 rest] eqn:Hb; cbn.
  - left. exists c. rewrite Hb. auto.
  - right; left. exists c. rewrite Hb. repeat split; auto; discriminate.
Qed.

(** What a send leaves as it was. *)
Lemma send_frame ch (v : T) s :
  let s' := store_of (send ch v s) in
  subscriptions s' = subscriptions s
  /\ length (chans s') = length (chans s)
  /\ (forall ch', closed <$> chans s' !! ch' = closed <$> chans s !! ch')
  /\ (forall ch', ch' <> ch -> chans s' !! ch' = chans s !! ch').
Proof.
  destruct (send_cases ch v s)
    as [(c & Hc & Hcl & Hb & ->)|[(c & Hc & Hcl & Hb & ->)
       |[(c & Hc & Hcl & ->)|(Hc & ->)]]]; cbn [store_of]; auto.
  cbn. split; [reflexivity|]. split; [apply length_insert|]. split.
  - intros ch'. destruct (decide (ch' = ch)) as [->|Hne].
    + rewrite list_lookup_insert_eq by (eapply lookup_lt_Some, Hc).
      rewrite Hc. cbn. congruence.
    + rewrite list_lookup_insert_ne by auto. reflexivity.
  - intros ch' Hne. rewrite list_lookup_insert_ne by auto. reflexivity.
Qed.

Lemma send_all_frame subs (v : T) s :
  let s' := store_of (send_all subs v s) in
  subscriptions s' = subscriptions s
  /\ length (chans s') = length (chans s)
  /\ (forall ch, closed <$> chans s' !! ch = closed <$> chans s !! ch)
  /\ (forall ch, ch ∉ subs -> chans s' !! ch = chans s !! ch).
Proof.
  revert s. induction subs as [|ch0 subs IH]; intros s; cbn [send_all].
  - cbn. auto.
  - pose proof (send_frame ch0 v s) as (F1 & F2 & F3 & F4).
    destruct (send ch0 v s) as [[] s1|s1 ch1|s1]; cbn [store_of] in *.
    + destruct (IH s1) as (G1 & G2 & G3 & G4).
      split; [congruence|]. split; [congruence|]. split.
      * intros ch. rewrite G3. apply F3.
      * intros ch Hnot. apply not_elem_of_cons in Hnot as [Hne Hnot].
        rewrite G4 by exact Hnot. apply F4, Hne.
    + repeat split; auto. intros ch Hnot.
      apply not_elem_of_cons in Hnot as [Hne _]. apply F4, Hne.
    + repeat split; auto. intros ch Hnot.
      apply not_elem_of_cons in Hnot as [Hne _]. apply F4, Hne.
Qed.

(** A loop over open channels does not panic. *)
Lemma send_all_open subs (v : T) s s' :
  (forall ch, ch ∈ subs -> closed <$> chans s !! ch = Some false) ->
  send_all subs v s <> Panicked s'.
Proof.
  revert s. induction subs as [|ch0 subs IH]; intros s Hopen; cbn [send_all];
    [discriminate|].
  pose proof (send_frame ch0 v s) as (_ & _ & F3 & _).
  destruct (send_cases ch0 v s)
    as [(c & Hc & Hcl & Hb & Hs)|[(c & Hc & Hcl & Hb & Hs)
       |[(c & Hc & Hcl & Hs)|(Hc & Hs)]]]; rewrite Hs in *; cbn [store_of] in *;
    try discriminate.
  - apply IH. intros ch Hin. rewrite F3. apply Hopen. apply elem_of_cons; auto.
  - exfalso. specialize (Hopen ch0 (proj2 (elem_of_cons _ _ _) (or_introl eq_refl))).
    rewrite Hc in Hopen. cbn in Hopen. congruence.
Qed.

(** A loop over different channels, all open and empty, fills them. *)
Lemma send_all_delivers subs (v : T) s :
  NoDup subs ->
  (forall ch, ch ∈ subs -> chans s !! ch = Some (mkChannel [] false)) ->
  exists s',
    send_all subs v s = Returned tt s'
    /\ (forall ch, ch ∈ subs -> chans s' !! ch = Some (mkChannel [v] false)).
Proof.
  revert s. induction subs as [|ch0 subs IH]; intros s Hnd Hempty; cbn [send_all].
  - exists s. split; [reflexivity|]. intros ch Hin. apply elem_of_nil in Hin as [].
  - apply NoDup_cons in Hnd as [Hnot Hnd].
    assert (H0 : chans s !! ch0 = Some (mkChannel [] false))
      by (apply Hempty, elem_of_cons; auto).
    unfold send at 1. rewrite H0. cbn.
    set (s1 := set_chan ch0 (mkChannel [v] false) s).
    destruct (IH s1 Hnd) as (s' & Hs' & Hfull).
    { intros ch Hin. unfold s1. rewrite lookup_set_chan_ne.
      - apply Hempty, elem_of_cons; auto.
      - intros ->. contradiction. }
    exists s'. split; [exact Hs'|].
    intros ch Hin. apply elem_of_cons in Hin as [->|Hin]; [|apply Hfull, Hin].
    pose proof (send_all_frame subs v s1) as (_ & _ & _ & G4).
    rewrite Hs' in G4. cbn [store_of] in G4. rewrite (G4 ch0 Hnot).
    unfold s1. apply lookup_set_chan_eq. eapply lookup_lt_Some, H0.
Qed.

(** *** The subscribers after a call *)

Lemma subscribers_of_insert topic t subs (m : gmap string (list nat))
    (cs : list (channel T)) :
  subscribers_of t (mkStore cs (<[topic := subs]> m))
  = if decide (t = topic) then subs else subscribers_of t (mkStore cs m).
Proof.
  unfold subscribers_of. cbn. destruct (decide (t = topic)) as [->|Hne].
  - rewrite lookup_insert_eq. reflexivity.
  - rewrite lookup_insert_ne by auto. reflexivity.
Qed.

Lemma subscribers_of_chans t s (cs : list (channel T)) :
  subscribers_of t (mkStore cs (subscriptions s)) = subscribers_of t s.
Proof. reflexivity. Qed.

Lemma subscribed_lt topic ch s :
  well_formed s -> ch ∈ subscribers_of topic s -> ch < length (chans s).
Proof.
  intros (Hopen & _) Hin. specialize (Hopen topic ch Hin).
  destruct (chans s !! ch) eqn:Hc; [|discriminate].
  eapply lookup_lt_Some, Hc.
Qed.

Lemma well_formed_same_shape s s' :
  well_formed s ->
  subscriptions s' = subscriptions s ->
  (forall ch, closed <$> chans s' !! ch = closed <$> chans s !! ch) ->
  well_formed s'.
Proof.
  intros (Hopen & Hnd & Hone) Hsubs Hcl.
  assert (Hsame : forall t, subscribers_of t s' = subscribers_of t s)
    by (intros t; unfold subscribers_of; rewrite Hsubs; reflexivity).
  split; [|split].
  - intros topic ch. rewrite Hsame, Hcl. apply Hopen.
  - intros topic. rewrite Hsame. apply Hnd.
  - intros t1 t2 ch. rewrite !Hsame. apply Hone.
Qed.

Lemma well_formed_new : well_formed (NewSubscriptions (T:=T)).
Proof.
  split; [|split]; unfold subscribers_of; cbn.
  - intros topic ch Hin. rewrite lookup_empty in Hin. cbn in Hin.
    apply elem_of_nil in Hin as [].
  - intros topic. rewrite lookup_empty. constructor.
  - intros t1 t2 ch Hin. rewrite lookup_empty in Hin. cbn in Hin.
    apply elem_of_nil in Hin as [].
Qed.

(** *** Subscribe *)

Lemma Subscribe_well_formed topic s :
  well_formed s -> well_formed (Subscribe topic s).2.
Proof.
  intros Hwf. pose proof Hwf as (Hopen & Hnd & Hone).
  unfold Subscribe. cbn [snd].
  split; [|split].
  - intros t ch. rewrite subscribers_of_insert. cbn [chans].
    destruct (decide (t = topic)) as [->|Hne].
    + intros Hin. apply elem_of_app in Hin as [Hin|Hin].
      * rewrite lookup_app_l by (eapply subscribed_lt; eauto).
        eapply Hopen; eauto.
      * apply list_elem_of_singleton in Hin as ->.
        rewrite list_lookup_middle by reflexivity. reflexivity.
    + intros Hin. change (ch ∈ subscribers_of t s) in Hin.
      rewrite lookup_app_l by (eapply subscribed_lt; eauto).
      eapply Hopen; eauto.
  - intros t. rewrite subscribers_of_insert.
    destruct (decide (t = topic)) as [->|Hne]; [|apply Hnd].
    apply NoDup_app. split; [apply Hnd|]. split; [|apply NoDup_singleton].
    intros ch Hin Hnew. apply list_elem_of_singleton in Hnew as ->.
    pose proof (subscribed_lt _ _ _ Hwf Hin). lia.
  - intros t1 t2 ch. rewrite !subscribers_of_insert.
    change (subscribers_of ?t (mkStore _ (subscriptions s)))
      with (subscribers_of t s).
    assert (Hfresh : forall t, length (chans s) ∉ subscribers_of t s).
    { intros t Hin. pose proof (subscribed_lt _ _ _ Hwf Hin). lia. }
    destruct (decide (t1 = topic)) as [->|Hne1];
      destruct (decide (t2 = topic)) as [->|Hne2]; try reflexivity.
    + intros H1 H2. apply elem_of_app in H1 as [H1|H1].
      * eapply Hone; eauto.
      * apply list_elem_of_singleton in H1 as ->. destruct (Hfresh _ H2).
    + intros H1 H2. apply elem_of_app in H2 as [H2|H2].
      * eapply Hone; eauto.
      * apply list_elem_of_singleton in H2 as ->. destruct (Hfresh _ H1).
    + apply Hone.
Qed.

Lemma subscribe_own_channel_facts topic s :
  well_formed s ->
  let r := Subscribe topic s in
  chans r.2 !! r.1 = Some (mkChannel [] false)
  /\ subscribers_of topic r.2 = (subscribers_of topic s ++ [r.1])%list
  /\ (forall ch, ch < length (chans s) -> chans r.2 !! ch = chans s !! ch)
  /\ well_formed r.2.
Proof.
  intros Hwf r. subst r. split; [|split; [|split]].
  - cbn. apply list_lookup_middle. reflexivity.
  - unfold Subscribe. cbn [fst snd]. rewrite subscribers_of_insert.
    rewrite decide_True by reflexivity. reflexivity.
  - intros ch Hlt. cbn. apply lookup_app_l, Hlt.
  - apply Subscribe_well_formed, Hwf.
Qed.

(** X12: A subscriber gets a channel that no subscriber has had, open and
    empty, and joins the end of the subscribers of its topic; the
    subscribers of the other topics and the channels made before are as
    they were. *)
Theorem subscribe_own_channel topic s :
  well_formed s ->
  let r := Subscribe topic s in
  (forall t, r.1 ∉ subscribers_of t s)
  /\ chans r.2 !! r.1 = Some (mkChannel [] false)
  /\ subscribers_of topic r.2 = (subscribers_of topic s ++ [r.1])%list
  /\ (forall t, t <> topic -> subscribers_of t r.2 = subscribers_of t s)
  /\ (forall ch, ch < length (chans s) -> chans r.2 !! ch = chans s !! ch)
  /\ well_formed r.2.
Proof.
  intros Hwf r. subst r. split; [|split; [|split; [|split; [|split]]]].
  - intros t Hin. cbn in Hin. pose proof (subscribed_lt _ _ _ Hwf Hin). lia.
  - cbn. apply list_lookup_middle. reflexivity.
  - unfold Subscribe. cbn [fst snd]. rewrite subscribers_of_insert.
    rewrite decide_True by reflexivity. reflexivity.
  - intros t Hne. unfold Subscribe. cbn [fst snd].
    rewrite subscribers_of_insert, decide_False by exact Hne. reflexivity.
  - intros ch Hlt. cbn. apply lookup_app_l, Hlt.
  - apply Subscribe_well_formed, Hwf.
Qed.

(** *** Publish *)

Lemma publish_frame_facts topic (v : T) s :
  let s' := store_of (Publish topic v s) in
  subscriptions s' = subscriptions s
  /\ length (chans s') = length (chans s)
  /\ (forall ch, closed <$> chans s' !! ch = closed <$> chans s !! ch)
  /\ (forall ch, ch ∉ subscribers_of topic s -> chans s' !! ch = chans s !! ch).
Proof. apply send_all_frame. Qed.

(** X13: [Publish] changes nothing but the buffers of the channels subscribed
    to its topic: the subscriptions, the channels of the other subscribers
    and which channels are closed stay as they are, however the call ends.
    On a topic without subscribers it returns at once. *)
Theorem publish_frame topic (v : T) s :
  let s' := store_of (Publish topic v s) in
  subscriptions s' = subscriptions s
  /\ length (chans s') = length (chans s)
  /\ (forall ch, closed <$> chans s' !! ch = closed <$> chans s !! ch)
  /\ (forall ch, ch ∉ subscribers_of topic s -> chans s' !! ch = chans s !! ch)
  /\ (subscribers_of topic s = [] -> Publish topic v s = Returned tt s).
Proof.
  intros s'. subst s'. unfold Publish.
  destruct (send_all_frame (subscribers_of topic s) v s) as (F1 & F2 & F3 & F4).
  repeat (split; [assumption|]).
  intros ->. reflexivity.
Qed.

Lemma Publish_well_formed topic (v : T) s :
  well_formed s ->
  well_formed (store_of (Publish topic v s))
  /\ forall s', Publish topic v s <> Panicked s'.
Proof.
  intros Hwf. split.
  - destruct (send_all_frame (subscribers_of topic s) v s) as (F1 & _ & F3 & _).
    eapply well_formed_same_shape; eauto.
  - intros s'. apply send_all_open. intros ch Hin.
    destruct Hwf as (Hopen & _). eapply Hopen, Hin.
Qed.

(** X14: Subscribe, publish, receive: when the channels of a topic are empty, a
    new subscriber of the topic finds in its channel the value that is
    published next, as every other subscriber of the topic does. *)
Theorem subscribe_publish_receive topic (v : T) s :
  well_formed s ->
  (forall ch, ch ∈ subscribers_of topic s ->
              buffer <$> chans s !! ch = Some []) ->
  let r := Subscribe topic s in
  exists s2,
    Publish topic v r.2 = Returned tt s2
    /\ (forall ch, ch ∈ subscribers_of topic r.2 ->
                   chans s2 !! ch = Some (mkChannel [v] false))
    /\ receive r.1 s2
       = Returned (Some v) (set_chan r.1 (mkChannel [] false) s2).
Proof.
  intros Hwf Hempty r.
  destruct (subscribe_own_channel_facts topic s Hwf)
    as (Hnew & Hsubs & Hold & Hwf').
  fold r in Hnew, Hsubs, Hold, Hwf'.
  destruct (send_all_delivers (subscribers_of topic r.2) v r.2)
    as (s2 & Hs2 & Hfull).
  { destruct Hwf' as (_ & Hnd & _). apply Hnd. }
  { intros ch Hin. rewrite Hsubs in Hin.
    apply elem_of_app in Hin as [Hin|Hin].
    - rewrite Hold by (eapply subscribed_lt; eauto).
      pose proof (Hempty ch Hin) as Hb. destruct Hwf as (Hopen & _).
      pose proof (Hopen topic ch Hin) as Hc.
      destruct (chans s !! ch) as [[b c]|]; cbn in *; congruence.
    - apply list_elem_of_singleton in Hin as ->. exact Hnew. }
  exists s2. split; [exact Hs2|]. split; [exact Hfull|].
  unfold receive. rewrite Hfull; [reflexivity|].
  rewrite Hsubs. apply elem_of_app. right. apply list_elem_of_singleton.
  reflexivity.
Qed.

(** X15: The channels hold one value: after a [Publish] that returned, the
    next [Publish] on the topic waits on the first subscriber, until that
    one has received. *)
Theorem second_publish_blocks topic (v v' : T) s s1 ch rest :
  well_formed s ->
  subscribers_of topic s = ch :: rest ->
  Publish topic v s = Returned tt s1 ->
  Publish topic v' s1 = Blocked s1 ch.
Proof.
  intros (Hopen & Hnd & _) Hsubs Hpub.
  pose proof (publish_frame_facts topic v s) as (F1 & _ & F3 & _).
  rewrite Hpub in F1, F3. cbn [store_of] in F1, F3.
  assert (Hs1 : subscribers_of topic s1 = ch :: rest)
    by (unfold subscribers_of; rewrite F1; exact Hsubs).
  unfold Publish in *. rewrite Hs1, Hsubs in *. cbn [send_all] in *.
  specialize (Hnd topic). rewrite Hsubs in Hnd.
  apply NoDup_cons in Hnd as [Hnot _].
  destruct (send_cases ch v s)
    as [(c & Hc & Hcl & Hb & Hs)|[(c & Hc & Hcl & Hb & Hs)
       |[(c & Hc & Hcl & Hs)|(Hc & Hs)]]]; rewrite Hs in Hpub;
    try discriminate.
  pose proof (send_all_frame rest v (set_chan ch (mkChannel [v] false) s))
    as (_ & _ & _ & G4).
  rewrite Hpub in G4. cbn [store_of] in G4.
  assert (Hfull : chans s1 !! ch = Some (mkChannel [v] false)).
  { rewrite (G4 ch Hnot). apply lookup_set_chan_eq. eapply lookup_lt_Some, Hc. }
  unfold send. rewrite Hfull. reflexivity.
Qed.

(** *** Unsubscribe *)

Lemma index_of_None ch subs : index_of ch subs = None <-> ch ∉ subs.
Proof.
  induction subs as [|ch0 subs IH]; cbn.
  - split; [intros _ Hin; apply elem_of_nil in Hin as []|reflexivity].
  - rewrite not_elem_of_cons. destruct (Nat.eqb_spec ch0 ch) as [->|Hne].
    + split; [discriminate|intros [Hne _]; congruence].
    + destruct (index_of ch subs); cbn.
      * split; [discriminate|]. intros [_ Hnot]. apply IH in Hnot. discriminate.
      * split; [|reflexivity]. intros _. split; [congruence|]. apply IH.
        reflexivity.
Qed.

Lemma index_of_Some ch subs i :
  index_of ch subs = Some i ->
  exists before after,
    subs = (before ++ ch :: after)%list
    /\ (ch ∉ before)
    /\ (take i subs ++ drop (S i) subs)%list = (before ++ after)%list.
Proof.
  revert i. induction subs as [|ch0 subs IH]; intros i; cbn; [discriminate|].
  destruct (Nat.eqb_spec ch0 ch) as [->|Hne].
  - intros [= <-]. exists [], subs. cbn. rewrite drop_0.
    repeat split. intros Hin. apply elem_of_nil in Hin as [].
  - destruct (index_of ch subs) as [j|] eqn:Hj; cbn; [|discriminate].
    intros [= <-]. destruct (IH j eq_refl) as (before & after & -> & Hnot & Heq).
    exists (ch0 :: before), after. cbn. repeat split.
    + apply not_elem_of_cons. split; [congruence|exact Hnot].
    + f_equal. exact Heq.
Qed.

(** X16: Unsubscribing a channel that is not among the subscribers of the
    topic changes nothing and closes nothing: a topic that is not in the
    map, the channel of another topic, a channel that has been
    unsubscribed before. *)
Theorem unsubscribe_absent_changes_nothing topic ch s :
  ch ∉ subscribers_of topic s ->
  Unsubscribe topic ch s = Returned tt s.
Proof.
  unfold subscribers_of, Unsubscribe.
  destruct (subscriptions s !! topic) as [subs|]; cbn; [|reflexivity].
  intros Hnot. apply index_of_None in Hnot. rewrite Hnot. reflexivity.
Qed.

Lemma Unsubscribe_present topic ch s :
  well_formed s ->
  ch ∈ subscribers_of topic s ->
  exists s' before after c,
    Unsubscribe topic ch s = Returned tt s'
    /\ subscribers_of topic s = (before ++ ch :: after)%list
    /\ subscribers_of topic s' = (before ++ after)%list
    /\ (forall t, ch ∉ subscribers_of t s')
    /\ (forall t, t <> topic -> subscribers_of t s' = subscribers_of t s)
    /\ chans s !! ch = Some c
    /\ chans s' !! ch = Some (mkChannel (buffer c) true)
    /\ (forall ch', ch' <> ch -> chans s' !! ch' = chans s !! ch')
    /\ well_formed s'.
Proof.
  intros Hwf Hin. pose proof Hwf as (Hopen & Hnd & Hone).
  pose proof (Hopen topic ch Hin) as Hc.
  destruct (chans s !! ch) as [c|] eqn:Hch; [|discriminate].
  injection Hc as Hcl.
  assert (Hlt : ch < length (chans s)) by (eapply lookup_lt_Some, Hch).
  unfold Unsubscribe.
  destruct (subscriptions s !! topic) as [subs|] eqn:Hsubs.
  2:{ unfold subscribers_of in Hin. rewrite Hsubs in Hin. cbn in Hin.
      apply elem_of_nil in Hin as []. }
  assert (Hof : subscribers_of topic s = subs)
    by (unfold subscribers_of; rewrite Hsubs; reflexivity).
  rewrite Hof in Hin.
  destruct (index_of ch subs) as [i|] eqn:Hi.
  2:{ apply index_of_None in Hi. contradiction. }
  destruct (index_of_Some ch subs i Hi) as (before & after & Hsplit & Hnotb & Hrm).
  unfold close. rewrite Hch, Hcl, Hrm. cbn [set_chan chans subscriptions].
  pose proof (Hnd topic) as Hnd0. rewrite Hof, Hsplit in Hnd0.
  apply NoDup_app in Hnd0 as (Hndb & Hdisj & Hnda).
  apply NoDup_cons in Hnda as [Hnota Hnda].
  set (s' := mkStore (<[ch := mkChannel (buffer c) true]> (chans s))
                     (<[topic := (before ++ after)%list]> (subscriptions s))).
  assert (Hof' : forall t, subscribers_of t s'
                  = if decide (t = topic) then (before ++ after)%list
                    else subscribers_of t s).
  { intros t. unfold s'. rewrite subscribers_of_insert. reflexivity. }
  assert (Hgone : forall t, ch ∉ subscribers_of t s').
  { intros t. rewrite Hof'. destruct (decide (t = topic)) as [->|Hne].
    - intros Hx. apply elem_of_app in Hx as [Hx|Hx]; contradiction.
    - intros Hx. apply Hne. eapply Hone; [exact Hx|].
      rewrite Hof, Hsplit. apply elem_of_app. right. apply elem_of_cons. auto. }
  assert (Hsub : forall t x, x ∈ subscribers_of t s' -> x ∈ subscribers_of t s).
  { intros t x. rewrite Hof'. destruct (decide (t = topic)) as [->|Hne]; [|auto].
    rewrite Hof, Hsplit, !elem_of_app, elem_of_cons. tauto. }
  exists s', before, after, c.
  split; [reflexivity|]. split; [rewrite Hof; exact Hsplit|].
  split; [rewrite Hof', decide_True by reflexivity; reflexivity|].
  split; [exact Hgone|].
  split; [intros t Hne; rewrite Hof', decide_False by exact Hne; reflexivity|].
  split; [reflexivity|].
  split; [apply list_lookup_insert_eq, Hlt|].
  split; [intros ch' Hne; apply list_lookup_insert_ne; congruence|].
  split; [|split].
  - intros t x Hx. cbn [chans s'].
    rewrite list_lookup_insert_ne.
    + eapply Hopen, Hsub, Hx.
    + intros <-. exact (Hgone t Hx).
  - intros t. rewrite Hof'. destruct (decide (t = topic)); [|apply Hnd].
    apply NoDup_app. split; [exact Hndb|]. split; [|exact Hnda].
    intros x Hxb Hxa. apply (Hdisj x Hxb). apply elem_of_cons. auto.
  - intros t1 t2 x H1 H2. eapply Hone; eapply Hsub; eauto.
Qed.

(** X17: Unsubscribing a subscriber of the topic returns, without panic: the
    channel leaves the subscribers of the topic, which keep their order,
    and is closed with its buffer kept; the other topics and the other
    channels are as they were. *)
Theorem unsubscribe_removes_and_closes topic ch s :
  well_formed s ->
  ch ∈ subscribers_of topic s ->
  exists s' before after c,
    Unsubscribe topic ch s = Returned tt s'
    /\ subscribers_of topic s = (before ++ ch :: after)%list
    /\ subscribers_of topic s' = (before ++ after)%list
    /\ (forall t, ch ∉ subscribers_of t s')
    /\ (forall t, t <> topic -> subscribers_of t s' = subscribers_of t s)
    /\ chans s !! ch = Some c
    /\ chans s' !! ch = Some (mkChannel (buffer c) true)
    /\ (forall ch', ch' <> ch -> chans s' !! ch' = chans s !! ch')
    /\ well_formed s'.
Proof. apply Unsubscribe_present. Qed.

Lemma Unsubscribe_well_formed topic ch s :
  well_formed s ->
  exists s', Unsubscribe topic ch s = Returned tt s' /\ well_formed s'
             /\ ch ∉ subscribers_of topic s'.
Proof.
  intros Hwf. destruct (decide (ch ∈ subscribers_of topic s)) as [Hin|Hnot].
  - destruct (Unsubscribe_present topic ch s Hwf Hin)
      as (s' & before & after & c & Hu & _ & _ & Hgone & _ & _ & _ & _ & Hwf').
    exists s'. auto.
  - exists s. split; [|auto].
    unfold subscribers_of, Unsubscribe in *.
    destruct (subscriptions s !! topic) as [subs|]; cbn in *; [|reflexivity].
    apply index_of_None in Hnot. rewrite Hnot. reflexivity.
Qed.

(** X18: Unsubscribing the same channel again is harmless: the second call
    returns and changes nothing, and the channel is not closed twice. *)
Theorem unsubscribe_twice topic ch s s' :
  well_formed s ->
  Unsubscribe topic ch s = Returned tt s' ->
  Unsubscribe topic ch s' = Returned tt s'.
Proof.
  intros Hwf Hu.
  destruct (Unsubscribe_well_formed topic ch s Hwf) as (s0 & Hu0 & _ & Hgone).
  assert (s0 = s') as -> by congruence.
  unfold subscribers_of, Unsubscribe in *.
  destruct (subscriptions s' !! topic) as [subs|]; cbn in *; [|reflexivity].
  apply index_of_None in Hgone. rewrite Hgone. reflexivity.
Qed.

(** *** Sequences of calls *)

Lemma receive_frame ch s :
  let s' := store_of (receive ch s) in
  subscriptions s' = subscriptions s
  /\ (forall ch', closed <$> chans s' !! ch' = closed <$> chans s !! ch')
  /\ forall s0, receive ch s <> Panicked s0.
Proof.
  unfold receive. destruct (chans s !! ch) as [c|] eqn:Hc; cbn.
  - destruct (buffer c) as [|v rest]; cbn.
    + destruct (closed c); cbn; repeat split; auto; discriminate.
    + split; [reflexivity|]. split; [|discriminate].
      intros ch'. destruct (decide (ch' = ch)) as [->|Hne].
      * rewrite list_lookup_insert_eq by (eapply lookup_lt_Some, Hc).
        rewrite Hc. reflexivity.
      * rewrite list_lookup_insert_ne by auto. reflexivity.
  - repeat split; auto; discriminate.
Qed.

Lemma run_well_formed (calls : list (call T)) s :
  well_formed s ->
  well_formed (store_of (run calls s)) /\ forall s', run calls s <> Panicked s'.
Proof.
  revert s. induction calls as [|c calls IH]; intros s Hwf; cbn [run].
  - split; [exact Hwf|discriminate].
  - destruct c as [topic|topic v|topic ch|ch].
    + apply IH, Subscribe_well_formed, Hwf.
    + destruct (Publish_well_formed topic v s Hwf) as [Hwf' Hnp].
      destruct (Publish topic v s) as [[] s1|s1 ch1|s1]; cbn [store_of] in *.
      * apply IH, Hwf'.
      * split; [exact Hwf'|discriminate].
      * destruct (Hnp s1 eq_refl).
    + destruct (Unsubscribe_well_formed topic ch s Hwf) as (s1 & -> & Hwf' & _).
      apply IH, Hwf'.
    + destruct (receive_frame ch s) as (F1 & F2 & Hnp).
      assert (Hwf' : well_formed (store_of (receive ch s)))
        by (eapply well_formed_same_shape; eauto).
      destruct (receive ch s) as [o s1|s1 ch1|s1]; cbn [store_of] in *.
      * apply IH, Hwf'.
      * split; [exact Hwf'|discriminate].
      * destruct (Hnp s1 eq_refl).
Qed.

(** X19: Whatever a user of a new table calls, in whatever order and with
    whatever channels, nothing panics: no value is sent on a closed
    channel and no channel is closed twice. *)
Theorem calls_never_panic (calls : list (call T)) s' :
  run calls NewSubscriptions <> Panicked s'.
Proof. apply run_well_formed, well_formed_new. Qed.

End PubSubFacts.

(** ** The nodes of the binary tree *)

Section BTreeFacts.

Import BTree.

Local Open Scope Z_scope.

(** X20: [compare] answers with -1, 0 or 1; with 0 exactly for a node that
    holds the same number, with -1 exactly for a node that holds a greater
    number, and with 1 for every other node, also one that holds no
    number at all. *)
Theorem compare_answers ti aNode :
  (compare ti aNode = 0 <-> nData aNode = DInt ti)
  /\ (compare ti aNode = -1 <-> exists n, nData aNode = DInt n /\ ti < n)
  /\ (compare ti aNode = 1 <->
       forall n, nData aNode = DInt n -> n < ti).
Proof.
  unfold compare. destruct (nData aNode) as [n| |].
  - destruct (Z.eqb_spec ti n) as [->|Hne]; [|destruct (Z.ltb_spec ti n)].
    + split; [split; auto|]. split.
      * split; [discriminate|]. intros (m & [= <-] & Hlt). lia.
      * split; [discriminate|]. intros Hall. specialize (Hall n eq_refl). lia.
    + split; [split; [discriminate|intros [= ->]; lia]|]. split.
      * split; eauto.
      * split; [discriminate|]. intros Hall. specialize (Hall n eq_refl). lia.
    + split; [split; [discriminate|intros [= ->]; lia]|]. split.
      * split; [discriminate|]. intros (m & [= <-] & Hlt). lia.
      * split; [|reflexivity]. intros _ m [= <-]. lia.
  - split; [split; discriminate|]. split.
    + split; [discriminate|]. intros (m & Hm & _). discriminate.
    + split; [|reflexivity]. intros _ m Hm. discriminate.
  - split; [split; discriminate|]. split.
    + split; [discriminate|]. intros (m & Hm & _). discriminate.
    + split; [|reflexivity]. intros _ m Hm. discriminate.
Qed.

(** X21: On numbers [compare] is antisymmetric: comparing the other way round
    gives the opposite answer. *)
Theorem compare_antisymmetric a b l r l' r' :
  compare a (mkNode (DInt b) l r) = - compare b (mkNode (DInt a) l' r').
Proof.
  unfold compare. cbn.
  destruct (Z.eqb_spec a b), (Z.eqb_spec b a), (Z.ltb_spec a b),
    (Z.ltb_spec b a); lia.
Qed.

(** X22: On nodes that hold numbers [lt] and [compare] agree. *)
Theorem lt_agrees_with_compare a b l r aNode :
  nData aNode = DInt b ->
  (lt (Some (mkNode (DInt a) l r)) (Some aNode) = Some true
   <-> compare a aNode = -1)
  /\ (lt (Some (mkNode (DInt a) l r)) (Some aNode) = Some false
      <-> 0 <= compare a aNode).
Proof.
  intros Hb. unfold lt, nData_int, compare. cbn. rewrite Hb.
  destruct (Z.eqb_spec a b), (Z.ltb_spec a b); split; split;
    intros; try discriminate; try reflexivity; lia.
Qed.

(** X23: [lt] panics exactly when the receiver is nil, or the receiver
    holds a number and the argument is nil or holds no number, or the
    receiver holds a string and the argument is nil or holds no string.  A
    receiver that is not nil and holds neither a number nor a string is
    less than nothing, whatever the argument, nil included. *)
Theorem lt_panics_on_mixed_types tn aNode :
  (lt tn aNode = None <->
     tn = None
     \/ (exists t a, tn = Some t /\ nData t = DInt a
                     /\ forall n b, aNode = Some n -> nData n <> DInt b)
     \/ (exists t a, tn = Some t /\ nData t = DString a
                     /\ forall n b, aNode = Some n -> nData n <> DString b))
  /\ (forall t, tn = Some t -> nData t = DOther -> lt tn aNode = Some false).
Proof.
  split.
  - destruct tn as [t|]; cbn [lt]; [|split; auto].
    destruct (nData t) as [a|a|] eqn:Ht.
    + unfold nData_int. split.
      * intros Hpanic. right; left. exists t, a.
        split; [reflexivity|]. split; [exact Ht|].
        intros n b -> Hn. rewrite Hn in Hpanic. discriminate.
      * intros [Hnil|[(t' & a' & _ & _ & Hall)|(t' & a' & [= <-] & Ht' & _)]];
          [discriminate| |congruence].
        destruct aNode as [n|]; [|reflexivity].
        destruct (nData n) as [b|b|] eqn:Hn; try reflexivity.
        destruct (Hall n b eq_refl Hn).
    + unfold nData_string. split.
      * intros Hpanic. right; right. exists t, a.
        split; [reflexivity|]. split; [exact Ht|].
        intros n b -> Hn. rewrite Hn in Hpanic. discriminate.
      * intros [Hnil|[(t' & a' & [= <-] & Ht' & _)|(t' & a' & _ & _ & Hall)]];
          [discriminate|congruence|].
        destruct aNode as [n|]; [|reflexivity].
        destruct (nData n) as [b|b|] eqn:Hn; try reflexivity.
        destruct (Hall n b eq_refl Hn).
    + split; [discriminate|].
      intros [Hnil|[(t' & a' & [= <-] & Ht' & _)|(t' & a' & [= <-] & Ht' & _)]];
        [discriminate|congruence|congruence].
  - intros t -> Ht. cbn [lt]. rewrite Ht. reflexivity.
Qed.

(** X24: [lt] is a strict comparison: no node is less than itself, and of two
    nodes at most one is less than the other. *)
Theorem lt_strict tn aNode :
  lt tn tn <> Some true
  /\ (lt tn aNode = Some true -> lt aNode tn = Some false).
Proof.
  unfold lt, nData_int, nData_string. split.
  - destruct tn as [t|]; [|discriminate].
    destruct (nData t) as [a|a|]; try discriminate.
    + rewrite Z.ltb_irrefl. discriminate.
    + unfold String.ltb. pose proof (String.compare_antisym a a) as Hanti.
      destruct (String.compare a a); discriminate.
  - destruct tn as [t|]; [|discriminate].
    destruct aNode as [n|]; [|destruct (nData t); discriminate].
    destruct (nData t) as [a|a|], (nData n) as [b|b|]; try discriminate.
    + intros [= Hlt]. apply Z.ltb_lt in Hlt. f_equal. apply Z.ltb_ge. lia.
    + unfold String.ltb. rewrite (String.compare_antisym b a).
      destruct (String.compare a b); cbn; intros; try discriminate; reflexivity.
Qed.

End BTreeFacts.

(** ** The publish-subscribe table and the tree nodes on concrete calls *)

(** A new table of [int] with one subscriber of [topic1], as in [main]. *)
Definition one_subscriber : PubSub.store Z :=
  (PubSub.Subscribe "topic1" PubSub.NewSubscriptions).2.

Lemma well_formed_one_subscriber : PubSub.well_formed one_subscriber.
Proof. apply Subscribe_well_formed, well_formed_new. Qed.

Lemma subscribers_one_subscriber :
  PubSub.subscribers_of "topic1" one_subscriber = [0].
Proof. vm_compute. reflexivity. Qed.

Lemma subscribe_own_channel_witness :
  let r := PubSub.Subscribe "topic1" one_subscriber in
  r.1 = 1
  /\ PubSub.subscribers_of "topic1" r.2
     = (PubSub.subscribers_of "topic1" one_subscriber ++ [r.1])%list.
Proof.
  split; [reflexivity|].
  apply (subscribe_own_channel "topic1" one_subscriber
           well_formed_one_subscriber).
Defined.

Lemma subscribe_publish_receive_witness :
  let r := PubSub.Subscribe "topic1" one_subscriber in
  exists s2,
    PubSub.Publish "topic1" 42%Z r.2 = PubSub.Returned tt s2
    /\ (forall ch, ch ∈ PubSub.subscribers_of "topic1" r.2 ->
                   PubSub.chans s2 !! ch = Some (PubSub.mkChannel [42%Z] false))
    /\ PubSub.receive r.1 s2
       = PubSub.Returned (Some 42%Z)
           (PubSub.set_chan r.1 (PubSub.mkChannel [] false) s2).
Proof.
  apply (subscribe_publish_receive "topic1" 42%Z one_subscriber
           well_formed_one_subscriber).
  intros ch Hin. rewrite subscribers_one_subscriber in Hin.
  apply list_elem_of_singleton in Hin as ->. reflexivity.
Defined.

Lemma second_publish_blocks_witness :
  let s1 := PubSub.store_of (PubSub.Publish "topic1" 42%Z one_subscriber) in
  PubSub.Publish "topic1" 42%Z one_subscriber = PubSub.Returned tt s1
  /\ PubSub.Publish "topic1" 43%Z s1 = PubSub.Blocked s1 0.
Proof.
  intros s1.
  assert (H1 : PubSub.Publish "topic1" 42%Z one_subscriber
               = PubSub.Returned tt s1) by (vm_compute; reflexivity).
  split; [exact H1|].
  apply (second_publish_blocks "topic1" 42%Z 43%Z one_subscriber s1 0 []
           well_formed_one_subscriber subscribers_one_subscriber H1).
Defined.

Lemma unsubscribe_absent_changes_nothing_witness :
  PubSub.subscribers_of "topic2" one_subscriber = []
  /\ PubSub.Unsubscribe "topic2" 0 one_subscriber
     = PubSub.Returned tt one_subscriber.
Proof.
  assert (H2 : PubSub.subscribers_of "topic2" one_subscriber = [])
    by (vm_compute; reflexivity).
  split; [exact H2|].
  apply (unsubscribe_absent_changes_nothing "topic2" 0 one_subscriber).
  rewrite H2. apply not_elem_of_nil.
Defined.

Lemma unsubscribe_removes_and_closes_witness :
  exists s' before after c,
    PubSub.Unsubscribe "topic1" 0 one_subscriber = PubSub.Returned tt s'
    /\ PubSub.subscribers_of "topic1" one_subscriber
       = (before ++ 0 :: after)%list
    /\ PubSub.subscribers_of "topic1" s' = (before ++ after)%list
    /\ (forall t, 0 ∉ PubSub.subscribers_of t s')
    /\ (forall t, t <> "topic1" ->
          PubSub.subscribers_of t s' = PubSub.subscribers_of t one_subscriber)
    /\ PubSub.chans one_subscriber !! 0 = Some c
    /\ PubSub.chans s' !! 0 = Some (PubSub.mkChannel (PubSub.buffer c) true)
    /\ (forall ch', ch' <> 0 ->
          PubSub.chans s' !! ch' = PubSub.chans one_subscriber !! ch')
    /\ PubSub.well_formed s'.
Proof.
  apply (unsubscribe_removes_and_closes "topic1" 0 one_subscriber
           well_formed_one_subscriber).
  rewrite subscribers_one_subscriber. apply list_elem_of_singleton. reflexivity.
Defined.

Lemma unsubscribe_twice_witness :
  let s' := PubSub.store_of (PubSub.Unsubscribe "topic1" 0 one_subscriber) in
  PubSub.closed <$> PubSub.chans s' !! 0 = Some true
  /\ PubSub.Unsubscribe "topic1" 0 s' = PubSub.Returned tt s'.
Proof.
  intros s'. split; [vm_compute; reflexivity|].
  apply (unsubscribe_twice "topic1" 0 one_subscriber s'
           well_formed_one_subscriber).
  vm_compute. reflexivity.
Defined.

Lemma lt_agrees_with_compare_witness :
  BTree.lt (Some (BTree.mkNode (BTree.DInt 3) None None))
           (Some (BTree.mkNode (BTree.DInt 5) None None)) = Some true
  /\ BTree.compare 3 (BTree.mkNode (BTree.DInt 5) None None) = (-1)%Z.
Proof.
  split; [reflexivity|].
  apply (lt_agrees_with_compare 3 5 None None
           (BTree.mkNode (BTree.DInt 5) None None) eq_refl).
  reflexivity.
Defined.
